(** * The command-line debugger console (src/debugger/cli-debugger.c)

    A shallow embedding of the console's expression evaluator, argument
    list builder, command dispatcher, console loop and tab completion,
    together with the properties the console relies on.

    Conventions of the embedding:
    - [uint32_t] and [size_t] values are integers of [Z]; every C operation
      that may leave the range has its wrap-around written out;
    - a C string ([const char*]) is the [string] of the characters stored
      before its terminating NUL; advancing the pointer drops characters,
      and a read at the terminator yields the NUL character;
    - [struct DebugVector*] is a [list DebugVector]: the null pointer is
      [[]] and [dv->next] is the tail;
    - standard output and the calls made to the external services are
      recorded, in order, in an event log. *)

From Stdlib Require Import ZArith List Ascii String Bool Lia.
From Stdlib Require Import DecimalString.
Import ListNotations.

Local Open Scope Z_scope.

(* ------------------------------------------------------------------ *)
(** ** Machine integers *)

Definition UINT32_MAX : Z := 4294967295.

(** Conversion to [uint32_t]: reduction modulo 2^32. *)
Definition uint32 (z : Z) : Z := z mod 2 ^ 32.

(** Conversion to [int32_t] (two's complement). *)
Definition int32 (z : Z) : Z := (z + 2 ^ 31) mod 2 ^ 32 - 2 ^ 31.

(** Conversion to [size_t] (LP64: 64 bits). *)
Definition size_t (z : Z) : Z := z mod 2 ^ 64.

Definition uint16 (z : Z) : Z := z mod 2 ^ 16.
Definition uint8 (z : Z) : Z := z mod 2 ^ 8.

(* ------------------------------------------------------------------ *)
(** ** Data model *)

(** [enum DVType] and [struct DebugVector] (lines 11-22).  The [next]
    pointer is the list structure; the union is read through [intValue]
    only in this file. *)
Inductive DVType := DV_ERROR_TYPE | DV_INT_TYPE | DV_CHAR_TYPE.

Record DebugVector := mkDV { type : DVType; intValue : Z }.

Definition DVType_eqb (a b : DVType) : bool :=
  match a, b with
  | DV_ERROR_TYPE, DV_ERROR_TYPE => true
  | DV_INT_TYPE, DV_INT_TYPE => true
  | DV_CHAR_TYPE, DV_CHAR_TYPE => true
  | _, _ => false
  end.

(** [dv->type = t]. *)
Definition set_type (t : DVType) (dv : DebugVector) : DebugVector :=
  {| type := t; intValue := intValue dv |}.

(** [dv->intValue = v]. *)
Definition set_intValue (v : Z) (dv : DebugVector) : DebugVector :=
  {| type := type dv; intValue := v |}.

(** Modelled from the spec: parser.h is not among the sources.  [enum
    Operation] has the five operators of the expression language. *)
Inductive Operation := OP_ASSIGN | OP_ADD | OP_SUBTRACT | OP_MULTIPLY | OP_DIVIDE.

(** Modelled from the spec: parser.h is not among the sources.  A parse
    tree node is a leaf holding an unsigned integer, an internal node
    holding an operator and its owned left and right subtrees, or an
    identifier or error leaf without children.  The constructors are named
    after the token type the node carries, as [_evaluateParseTree]
    switches on it. *)
Inductive ParseTree :=
| TOKEN_UINT_TYPE (uintValue : Z)
| TOKEN_OPERATOR_TYPE (operatorValue : Operation) (lhs rhs : ParseTree)
| TOKEN_IDENTIFIER_TYPE (identifierValue : string)
| TOKEN_ERROR_TYPE.

(* ------------------------------------------------------------------ *)
(** ** Expression evaluation (lines 277-314) *)

(** [_performOperation]: the updated [current], and [dv] with its type
    set to ERROR on a division by zero. *)
Definition _performOperation (operation : Operation) (current next : Z)
    (dv : DebugVector) : Z * DebugVector :=
  match operation with
  | OP_ASSIGN => (next, dv)
  | OP_ADD => (uint32 (current + next), dv)
  | OP_SUBTRACT => (uint32 (current - next), dv)
  | OP_MULTIPLY => (uint32 (current * next), dv)
  | OP_DIVIDE =>
      if negb (next =? 0) then (current / next, dv)
      else (0, set_type DV_ERROR_TYPE dv)
  end.

(** [_evaluateParseTree].  C leaves the order in which the two operand
    calls run unspecified; each of them can only set [dv->type] to ERROR,
    so both orders give the same result, and the left one is run first
    here. *)
Fixpoint _evaluateParseTree (tree : ParseTree) (dv : DebugVector)
    : Z * DebugVector :=
  match tree with
  | TOKEN_UINT_TYPE uintValue => (uintValue, dv)
  | TOKEN_OPERATOR_TYPE operatorValue lhs rhs =>
      let (l, dv1) := _evaluateParseTree lhs dv in
      let (r, dv2) := _evaluateParseTree rhs dv1 in
      _performOperation operatorValue l r dv2
  | TOKEN_IDENTIFIER_TYPE _ => (0, set_type DV_ERROR_TYPE dv)
  | TOKEN_ERROR_TYPE => (0, set_type DV_ERROR_TYPE dv)
  end.

(** *** Unsigned 32-bit arithmetic, as the specification words it

    The value of a well-formed expression: operands are unsigned 32-bit
    literals; a sum that passes 2^32 - 1 or a difference that passes 0
    wraps around once; a product is reduced modulo 2^32; a quotient is the
    integer quotient; an assignment has the value of its right side.
    [None] marks a tree that is not well formed or that divides by
    zero. *)
Definition is_uint32 (v : Z) : bool := (0 <=? v) && (v <=? UINT32_MAX).

Definition wrapping_add (a b : Z) : Z :=
  if a + b <=? UINT32_MAX then a + b else a + b - (UINT32_MAX + 1).

Definition wrapping_sub (a b : Z) : Z :=
  if b <=? a then a - b else a - b + (UINT32_MAX + 1).

Definition wrapping_mul (a b : Z) : Z := (a * b) mod (UINT32_MAX + 1).

Fixpoint uint32_arithmetic (tree : ParseTree) : option Z :=
  match tree with
  | TOKEN_UINT_TYPE v => if is_uint32 v then Some v else None
  | TOKEN_OPERATOR_TYPE op l r =>
      match uint32_arithmetic l, uint32_arithmetic r with
      | Some a, Some b =>
          match op with
          | OP_ASSIGN => Some b
          | OP_ADD => Some (wrapping_add a b)
          | OP_SUBTRACT => Some (wrapping_sub a b)
          | OP_MULTIPLY => Some (wrapping_mul a b)
          | OP_DIVIDE => if b =? 0 then None else Some (a / b)
          end
      | _, _ => None
      end
  | TOKEN_IDENTIFIER_TYPE _ => None
  | TOKEN_ERROR_TYPE => None
  end.

(** A well-formed tree: unsigned 32-bit literals under the five
    operators. *)
Fixpoint well_formed (tree : ParseTree) : bool :=
  match tree with
  | TOKEN_UINT_TYPE v => is_uint32 v
  | TOKEN_OPERATOR_TYPE _ l r => well_formed l && well_formed r
  | TOKEN_IDENTIFIER_TYPE _ => false
  | TOKEN_ERROR_TYPE => false
  end.

(** The tree has a division node whose right child evaluates to zero
    (the value [_evaluateParseTree] returns for that child). *)
Fixpoint divides_by_zero (tree : ParseTree) : bool :=
  match tree with
  | TOKEN_OPERATOR_TYPE op l r =>
      match op with
      | OP_DIVIDE =>
          fst (_evaluateParseTree r (mkDV DV_INT_TYPE 0)) =? 0
      | _ => false
      end
      || divides_by_zero l || divides_by_zero r
  | _ => false
  end.

(* ------------------------------------------------------------------ *)
(** ** C strings *)

Definition NUL : ascii := "000"%char.
Definition SPACE : ascii := " "%char.
Definition NEWLINE : ascii := "010"%char.

(** [s[0]]. *)
Definition deref (s : string) : ascii :=
  match s with
  | EmptyString => NUL
  | String c _ => c
  end.

(** [s + n]; the pointer stays on the terminator once it is there. *)
Fixpoint advance (n : nat) (s : string) : string :=
  match n, s with
  | O, _ => s
  | S _, EmptyString => EmptyString
  | S n', String _ s' => advance n' s'
  end.

Definition strlen (s : string) : Z := Z.of_nat (String.length s).

(** [strchr(s, c) - s], or [None] for a null result. *)
Fixpoint strchr (s : string) (c : ascii) : option nat :=
  match s with
  | EmptyString => None
  | String a s' =>
      if Ascii.eqb a c then Some O
      else match strchr s' c with
           | Some n => Some (S n)
           | None => None
           end
  end.

Definition char_code (c : ascii) : Z := Z.of_N (N_of_ascii c).

(** [tolower] in the C locale. *)
Definition tolower (c : ascii) : ascii :=
  let n := char_code c in
  if (65 <=? n) && (n <=? 90) then ascii_of_N (Z.to_N (n + 32)) else c.

(** [strncasecmp(s1, s2, n)]: the difference of the first pair of
    characters that differ after [tolower], within the first [n]
    characters and up to the terminator; 0 when there is none. *)
Fixpoint strncasecmp (s1 s2 : string) (n : Z) : Z :=
  if n <=? 0 then 0
  else
    match s1 with
    | EmptyString => char_code (tolower NUL) - char_code (tolower (deref s2))
    | String c1 s1' =>
        let c2 := deref s2 in
        if Ascii.eqb (tolower c1) (tolower c2)
        then strncasecmp s1' (advance 1 s2) (n - 1)
        else char_code (tolower c1) - char_code (tolower c2)
    end.

(* ------------------------------------------------------------------ *)
(** ** [printf] conversions *)

Definition nl : string := String NEWLINE EmptyString.

Definition hex_digit (d : Z) : ascii :=
  match d with
  | 0 => "0" | 1 => "1" | 2 => "2" | 3 => "3" | 4 => "4" | 5 => "5"
  | 6 => "6" | 7 => "7" | 8 => "8" | 9 => "9" | 10 => "A" | 11 => "B"
  | 12 => "C" | 13 => "D" | 14 => "E" | _ => "F"
  end%char.

(** The [n] low hexadecimal digits of [v], most significant first. *)
Fixpoint hex_digits (n : nat) (v : Z) (acc : string) : string :=
  match n with
  | O => acc
  | S n' => hex_digits n' (v / 16) (String (hex_digit (v mod 16)) acc)
  end.

(** Leading zeros are dropped while more than [width] digits remain. *)
Fixpoint strip_zeros (width : nat) (s : string) : string :=
  match s with
  | String "0"%char s' =>
      if (width <? String.length s)%nat then strip_zeros width s' else s
  | _ => s
  end.

(** ["%0<width>X"] of an [unsigned int]. *)
Definition fmt_X (width : nat) (v : Z) : string :=
  strip_zeros width (hex_digits 8 (uint32 v) EmptyString).

(** ["%u"] of an [unsigned int]. *)
Definition fmt_u (v : Z) : string :=
  NilZero.string_of_uint (N.to_uint (Z.to_N (uint32 v))).

(* ------------------------------------------------------------------ *)
(** ** Effects: the event log *)

Inductive Event :=
| Stdout (text : string)
| LoadU8 (address : Z)
| LoadU16 (address : Z)
| Load32 (address : Z)
| Run
| SetBreakpoint (address : Z)
| ClearBreakpoint (address : Z)
| SetWatchpoint (address : Z)
| SigactionInstall
| RaiseSIGTRAP
| SigactionRestore.

(** A computation yields its result and the events it caused. *)
Definition IO (A : Type) : Type := A * list Event.

Definition ret {A} (a : A) : IO A := (a, []).

Definition bind {A B} (m : IO A) (k : A -> IO B) : IO B :=
  let (a, e1) := m in
  let (b, e2) := k a in
  (b, e1 ++ e2).

Definition emit (e : Event) : IO unit := (tt, [e]).

Definition printf (text : string) : IO unit := emit (Stdout text).

Declare Scope io_scope.
Delimit Scope io_scope with io.
Notation "x <- m ;; k" := (bind m (fun x => k))
  (at level 61, m at next level, right associativity) : io_scope.
Notation "m ;; k" := (bind m (fun _ => k))
  (at level 61, right associativity) : io_scope.
Local Open Scope io_scope.

(** The standard output of an event list. *)
Fixpoint stdout (es : list Event) : string :=
  match es with
  | [] => EmptyString
  | Stdout text :: es' => (text ++ stdout es')%string
  | _ :: es' => stdout es'
  end.

(** The events that reach outside the console: everything but output. *)
Definition is_service_call (e : Event) : bool :=
  match e with
  | Stdout _ => false
  | _ => true
  end.

(* ------------------------------------------------------------------ *)
(** ** External collaborators *)

Inductive ExecutionMode := MODE_ARM | MODE_THUMB.

Inductive DebuggerState :=
| DEBUGGER_DETACHED
| DEBUGGER_PAUSED
| DEBUGGER_RUNNING
| DEBUGGER_EXITING
| DEBUGGER_SHUTDOWN.

Definition WORD_SIZE_ARM : Z := 4.
Definition WORD_SIZE_THUMB : Z := 2.
Definition ARM_PC : Z := 15.

(** The services the console calls and does not implement: the CPU and
    its memory bus, the decoder and disassembler, the breakpoint and
    watchpoint engine, and the lexer and parser of parser.h.
    [indeterminate] is the content of a freshly allocated and not yet
    assigned [intValue]. *)
Class Collaborators := {
  ARMCore : Type;
  gprs : ARMCore -> Z -> Z;
  cpsr : ARMCore -> Z;
  executionMode : ARMCore -> ExecutionMode;
  loadU8 : ARMCore -> Z -> Z;
  loadU16 : ARMCore -> Z -> Z;
  load32 : ARMCore -> Z -> Z;
  ARMRun : ARMCore -> ARMCore;
  ARMDisassemble : ExecutionMode -> Z -> Z -> string;
  Engine : Type;
  ARMDebuggerSetBreakpoint : Engine -> Z -> Engine;
  ARMDebuggerClearBreakpoint : Engine -> Z -> Engine;
  ARMDebuggerSetWatchpoint : Engine -> Z -> Engine;
  LexVector : Type;
  lexExpression : string -> Z -> LexVector * Z;
  parseLexedExpression : LexVector -> ParseTree;
  indeterminate : Z
}.

(* ------------------------------------------------------------------ *)
(** ** The console *)

Section Console.
Context {C : Collaborators}.

Local Open Scope string_scope.
Local Open Scope Z_scope.

(** [struct ARMDebugger], as far as the console uses it: the run state,
    the CPU, and the breakpoint engine reached through
    [ARMDebuggerSetBreakpoint] and its siblings. *)
Record ARMDebugger := mkARMDebugger {
  state : DebuggerState;
  cpu : ARMCore;
  engine : Engine
}.

(** [struct CLIDebugger].  [histate] is the history of the line editor,
    most recent entry first. *)
Record CLIDebugger := mkCLIDebugger {
  d : ARMDebugger;
  histate : list string
}.

Definition set_state (s : DebuggerState) (debugger : CLIDebugger) : CLIDebugger :=
  {| d := {| state := s; cpu := cpu (d debugger); engine := engine (d debugger) |};
     histate := histate debugger |}.

Definition set_cpu (c : ARMCore) (debugger : CLIDebugger) : CLIDebugger :=
  {| d := {| state := state (d debugger); cpu := c; engine := engine (d debugger) |};
     histate := histate debugger |}.

Definition set_engine (e : Engine) (debugger : CLIDebugger) : CLIDebugger :=
  {| d := {| state := state (d debugger); cpu := cpu (d debugger); engine := e |};
     histate := histate debugger |}.

Definition set_histate (h : list string) (debugger : CLIDebugger) : CLIDebugger :=
  {| d := d debugger; histate := h |}.

Definition ERROR_MISSING_ARGS : string := "Arguments missing".

(** The [DebuggerCommand] function type: a handler receives the debugger
    and the argument sequence, and returns the debugger it has updated. *)
Definition DebuggerCommand : Type :=
  CLIDebugger -> list DebugVector -> IO CLIDebugger.

(** *** Inspection formatters (lines 80-89, 173-208) *)

(** Modelled from the spec: the header that declares [union PSR] is not
    among the sources; the flags sit at their ARM positions in the packed
    status word (N 31, Z 30, C 29, V 28, I 7, F 6, T 5). *)
Definition psr_flag (psr : Z) (bit : Z) (letter : string) : string :=
  if Z.testbit psr bit then letter else "-".

Definition _printPSR (psr : Z) : IO unit :=
  printf (fmt_X 8 psr ++ " [" ++ psr_flag psr 31 "N" ++ psr_flag psr 30 "Z"
          ++ psr_flag psr 29 "C" ++ psr_flag psr 28 "V" ++ psr_flag psr 7 "I"
          ++ psr_flag psr 6 "F" ++ psr_flag psr 5 "T" ++ "]" ++ nl).

Definition _printLine (debugger : CLIDebugger) (address : Z)
    (mode : ExecutionMode) : IO unit :=
  match mode with
  | MODE_ARM =>
      emit (Load32 address) ;;
      let instruction := uint32 (load32 (cpu (d debugger)) address) in
      printf (fmt_X 8 instruction ++ ": "
              ++ ARMDisassemble MODE_ARM instruction
                   (uint32 (address + WORD_SIZE_ARM * 2)) ++ nl)
  | MODE_THUMB =>
      emit (LoadU16 address) ;;
      let instruction := uint16 (loadU16 (cpu (d debugger)) address) in
      printf (fmt_X 4 instruction ++ ": "
              ++ ARMDisassemble MODE_THUMB instruction
                   (uint32 (address + WORD_SIZE_THUMB * 2)) ++ nl)
  end.

Definition _printStatus_row (debugger : CLIDebugger) (r : Z) : IO unit :=
  let g := gprs (cpu (d debugger)) in
  printf (fmt_X 8 (g (Z.shiftl r 2)) ++ " " ++ fmt_X 8 (g (Z.shiftl r 2 + 1))
          ++ " " ++ fmt_X 8 (g (Z.shiftl r 2 + 2)) ++ " "
          ++ fmt_X 8 (g (Z.shiftl r 2 + 3)) ++ nl).

Definition _printStatus (debugger : CLIDebugger) (dv : list DebugVector)
    : IO CLIDebugger :=
  _printStatus_row debugger 0 ;;
  _printStatus_row debugger 1 ;;
  _printStatus_row debugger 2 ;;
  _printStatus_row debugger 3 ;;
  _printPSR (cpsr (cpu (d debugger))) ;;
  let mode := if Z.testbit (cpsr (cpu (d debugger))) 5 then MODE_THUMB else MODE_ARM in
  let instructionLength :=
    match mode with
    | MODE_ARM => WORD_SIZE_ARM
    | MODE_THUMB => WORD_SIZE_THUMB
    end in
  _printLine debugger
    (uint32 (gprs (cpu (d debugger)) ARM_PC - instructionLength)) mode ;;
  ret debugger.

(** *** Command handlers (lines 96-270) *)

Definition _breakInto (debugger : CLIDebugger) (dv : list DebugVector)
    : IO CLIDebugger :=
  emit SigactionInstall ;;
  emit RaiseSIGTRAP ;;
  emit SigactionRestore ;;
  ret debugger.

Definition _continue (debugger : CLIDebugger) (dv : list DebugVector)
    : IO CLIDebugger :=
  ret (set_state DEBUGGER_RUNNING debugger).

Definition _next (debugger : CLIDebugger) (dv : list DebugVector)
    : IO CLIDebugger :=
  emit Run ;;
  let debugger := set_cpu (ARMRun (cpu (d debugger))) debugger in
  _printStatus debugger [].

Fixpoint _disassemble_loop (size : nat) (debugger : CLIDebugger)
    (address wordSize : Z) (mode : ExecutionMode) : IO unit :=
  match size with
  | O => ret tt
  | S size' =>
      _printLine debugger address mode ;;
      _disassemble_loop size' debugger (uint32 (address + wordSize)) wordSize mode
  end.

(** [!dv || dv->type != DV_INT_TYPE]. *)
Definition no_int_head (dv : list DebugVector) : bool :=
  match dv with
  | [] => true
  | node :: _ => negb (DVType_eqb (type node) DV_INT_TYPE)
  end.

Definition _disassemble (debugger : CLIDebugger) (dv : list DebugVector)
    : IO CLIDebugger :=
  let mode := executionMode (cpu (d debugger)) in
  let wordSize :=
    match mode with
    | MODE_ARM => WORD_SIZE_ARM
    | MODE_THUMB => WORD_SIZE_THUMB
    end in
  let '(address, dv) :=
    if no_int_head dv
    then (uint32 (gprs (cpu (d debugger)) ARM_PC - wordSize), dv)
    else (uint32 (intValue (hd (mkDV DV_INT_TYPE 0) dv)), tl dv) in
  let size :=
    if no_int_head dv then 1 else intValue (hd (mkDV DV_INT_TYPE 0) dv) in
  _disassemble_loop (Z.to_nat size) debugger address wordSize mode ;;
  ret debugger.

Fixpoint _print_loop (dv : list DebugVector) : IO unit :=
  match dv with
  | [] => ret tt
  | node :: next => printf (" " ++ fmt_u (intValue node)) ;; _print_loop next
  end.

Definition _print (debugger : CLIDebugger) (dv : list DebugVector)
    : IO CLIDebugger :=
  _print_loop dv ;;
  printf nl ;;
  ret debugger.

Fixpoint _printHex_loop (dv : list DebugVector) : IO unit :=
  match dv with
  | [] => ret tt
  | node :: next =>
      printf (" 0x" ++ fmt_X 8 (intValue node)) ;; _printHex_loop next
  end.

Definition _printHex (debugger : CLIDebugger) (dv : list DebugVector)
    : IO CLIDebugger :=
  _printHex_loop dv ;;
  printf nl ;;
  ret debugger.

Definition _quit (debugger : CLIDebugger) (dv : list DebugVector)
    : IO CLIDebugger :=
  ret (set_state DEBUGGER_SHUTDOWN debugger).

Definition _readByte (debugger : CLIDebugger) (dv : list DebugVector)
    : IO CLIDebugger :=
  if no_int_head dv then printf (ERROR_MISSING_ARGS ++ nl) ;; ret debugger
  else
    let address := uint32 (intValue (hd (mkDV DV_INT_TYPE 0) dv)) in
    emit (LoadU8 address) ;;
    let value := uint8 (loadU8 (cpu (d debugger)) address) in
    printf (" 0x" ++ fmt_X 2 value ++ nl) ;;
    ret debugger.

Definition _readHalfword (debugger : CLIDebugger) (dv : list DebugVector)
    : IO CLIDebugger :=
  if no_int_head dv then printf (ERROR_MISSING_ARGS ++ nl) ;; ret debugger
  else
    let address := uint32 (intValue (hd (mkDV DV_INT_TYPE 0) dv)) in
    emit (LoadU16 address) ;;
    let value := uint16 (loadU16 (cpu (d debugger)) address) in
    printf (" 0x" ++ fmt_X 4 value ++ nl) ;;
    ret debugger.

Definition _readWord (debugger : CLIDebugger) (dv : list DebugVector)
    : IO CLIDebugger :=
  if no_int_head dv then printf (ERROR_MISSING_ARGS ++ nl) ;; ret debugger
  else
    let address := uint32 (intValue (hd (mkDV DV_INT_TYPE 0) dv)) in
    emit (Load32 address) ;;
    let value := uint32 (load32 (cpu (d debugger)) address) in
    printf (" 0x" ++ fmt_X 8 value ++ nl) ;;
    ret debugger.

Definition _setBreakpoint (debugger : CLIDebugger) (dv : list DebugVector)
    : IO CLIDebugger :=
  if no_int_head dv then printf (ERROR_MISSING_ARGS ++ nl) ;; ret debugger
  else
    let address := uint32 (intValue (hd (mkDV DV_INT_TYPE 0) dv)) in
    emit (SetBreakpoint address) ;;
    ret (set_engine (ARMDebuggerSetBreakpoint (engine (d debugger)) address) debugger).

Definition _clearBreakpoint (debugger : CLIDebugger) (dv : list DebugVector)
    : IO CLIDebugger :=
  if no_int_head dv then printf (ERROR_MISSING_ARGS ++ nl) ;; ret debugger
  else
    let address := uint32 (intValue (hd (mkDV DV_INT_TYPE 0) dv)) in
    emit (ClearBreakpoint address) ;;
    ret (set_engine (ARMDebuggerClearBreakpoint (engine (d debugger)) address) debugger).

Definition _setWatchpoint (debugger : CLIDebugger) (dv : list DebugVector)
    : IO CLIDebugger :=
  if no_int_head dv then printf (ERROR_MISSING_ARGS ++ nl) ;; ret debugger
  else
    let address := uint32 (intValue (hd (mkDV DV_INT_TYPE 0) dv)) in
    emit (SetWatchpoint address) ;;
    ret (set_engine (ARMDebuggerSetWatchpoint (engine (d debugger)) address) debugger).

(** The command table (lines 48-78).  The entry [{ 0, 0 }] that closes
    the array is the end of the list. *)
Definition _debuggerCommands : list (string * DebuggerCommand) :=
  [ ("b", _setBreakpoint);
    ("break", _setBreakpoint);
    ("c", _continue);
    ("continue", _continue);
    ("d", _clearBreakpoint);
    ("delete", _clearBreakpoint);
    ("dis", _disassemble);
    ("disasm", _disassemble);
    ("i", _printStatus);
    ("info", _printStatus);
    ("n", _next);
    ("next", _next);
    ("p", _print);
    ("p/x", _printHex);
    ("print", _print);
    ("print/x", _printHex);
    ("q", _quit);
    ("quit", _quit);
    ("rb", _readByte);
    ("rh", _readHalfword);
    ("rw", _readWord);
    ("status", _printStatus);
    ("w", _setWatchpoint);
    ("watch", _setWatchpoint);
    ("x", _breakInto) ].

(** *** The argument list builder (lines 316-358) *)

(** Lines 321-336 of [_DVParse]: [dvTemp] once the segment at [str] has
    been lexed, parsed and evaluated, and the number of characters the
    lexer consumed.  On the path where [adjusted > length] the C code
    parses a token list it has just released; whatever tree comes out,
    [dvTemp] is ERROR there. *)
Definition _DVParse_segment (str : string) (length : Z) : DebugVector * Z :=
  let dvTemp := mkDV DV_INT_TYPE 0 in
  let (lv, adjusted) := lexExpression str length in
  let dvTemp := if adjusted >? length then set_type DV_ERROR_TYPE dvTemp else dvTemp in
  let tree := parseLexedExpression lv in
  let dvTemp :=
    match tree with
    | TOKEN_ERROR_TYPE => set_type DV_ERROR_TYPE dvTemp
    | _ =>
        let (value, dvTemp) := _evaluateParseTree tree dvTemp in
        set_intValue (int32 value) dvTemp
    end in
  (dvTemp, adjusted).

(** [_DVParse]; [str] is [None] for the null pointer.  Each recursive call
    starts behind a space of the string, so the fuel [S (strlen str)] of
    [_DVParse] is never used up. *)
Fixpoint _DVParse_rec (fuel : nat) (str : option string) (length : Z)
    : list DebugVector :=
  match fuel with
  | O => []
  | S fuel' =>
      match str with
      | None => []
      | Some str =>
          if length <? 1 then []
          else
            let (dvTemp, adjusted) := _DVParse_segment str length in
            let length := size_t (length - adjusted) in
            let str := advance (Z.to_nat adjusted) str in
            if DVType_eqb (type dvTemp) DV_ERROR_TYPE
            then [ mkDV DV_ERROR_TYPE indeterminate ]
            else if Ascii.eqb (deref str) SPACE
            then
              let next := _DVParse_rec fuel' (Some (advance 1 str)) (size_t (length - 1)) in
              match next with
              | node :: _ =>
                  if DVType_eqb (type node) DV_ERROR_TYPE
                  then set_type DV_ERROR_TYPE dvTemp :: next
                  else dvTemp :: next
              | [] => dvTemp :: next
              end
            else [ dvTemp ]
      end
  end.

Definition _DVParse (str : option string) (length : Z) : list DebugVector :=
  match str with
  | None => []
  | Some s => _DVParse_rec (S (String.length s)) str length
  end.

(** The segments of an argument text, as the builder delimits them: a
    segment starts at the text, and behind the space that follows the
    characters the lexer consumed for the segment before it.  Each is
    given with the length that remains there.  The list does not depend
    on whether a segment evaluates. *)
Fixpoint segments_rec (fuel : nat) (str : string) (length : Z)
    : list (string * Z) :=
  match fuel with
  | O => []
  | S fuel' =>
      if length <? 1 then []
      else
        let adjusted := snd (lexExpression str length) in
        let rest := advance (Z.to_nat adjusted) str in
        (str, length)
        :: (if Ascii.eqb (deref rest) SPACE
            then segments_rec fuel' (advance 1 rest)
                   (size_t (size_t (length - adjusted) - 1))
            else [])
  end.

Definition segments (str : string) (length : Z) : list (string * Z) :=
  segments_rec (S (String.length str)) str length.

(** The evaluation of the segment fails. *)
Definition segment_fails (seg : string * Z) : bool :=
  DVType_eqb (type (fst (_DVParse_segment (fst seg) (snd seg)))) DV_ERROR_TYPE.

(** [dv && dv->type == DV_ERROR_TYPE]. *)
Definition error_head (dv : list DebugVector) : bool :=
  match dv with
  | [] => false
  | node :: _ => DVType_eqb (type node) DV_ERROR_TYPE
  end.

(** *** The dispatcher (lines 369-400) *)

(** The lookup loop of [_parse] over the entries from [commands] on.
    [_DVFree] releases memory and has no counterpart here. *)
Fixpoint _parse_lookup (commands : list (string * DebuggerCommand))
    (debugger : CLIDebugger) (line : string) (cmdLength : Z)
    (dv : list DebugVector) : IO (Z * CLIDebugger) :=
  match commands with
  | [] => printf ("Command not found" ++ nl) ;; ret (0, debugger)
  | (name, command) :: commands' =>
      if negb (strlen name =? cmdLength)
      then _parse_lookup commands' debugger line cmdLength dv
      else if strncasecmp name line cmdLength =? 0
      then debugger' <- command debugger dv ;; ret (1, debugger')
      else _parse_lookup commands' debugger line cmdLength dv
  end.

(** [_parse] over a given command table. *)
Definition _parse_with (commands : list (string * DebuggerCommand))
    (debugger : CLIDebugger) (line : string) (count : Z)
    : IO (Z * CLIDebugger) :=
  match strchr line SPACE with
  | Some firstSpace =>
      let cmdLength := Z.of_nat firstSpace in
      let dv := _DVParse (Some (advance (S firstSpace) line))
                  (size_t (count - cmdLength - 1)) in
      if error_head dv
      then printf ("Parse error" ++ nl) ;; ret (0, debugger)
      else _parse_lookup commands debugger line cmdLength dv
  | None => _parse_lookup commands debugger line count []
  end.

Definition _parse : CLIDebugger -> string -> Z -> IO (Z * CLIDebugger) :=
  _parse_with _debuggerCommands.

(** The verb of a line: its first [cmdLength] characters. *)
Definition cmdLength_of (line : string) (count : Z) : Z :=
  match strchr line SPACE with
  | Some firstSpace => Z.of_nat firstSpace
  | None => count
  end.

Definition verb_of (line : string) (count : Z) : string :=
  substring 0 (Z.to_nat (cmdLength_of line count)) line.

(** The argument sequence [_parse] builds for a line. *)
Definition arguments_of (line : string) (count : Z) : list DebugVector :=
  match strchr line SPACE with
  | Some firstSpace =>
      _DVParse (Some (advance (S firstSpace) line))
        (size_t (count - Z.of_nat firstSpace - 1))
  | None => []
  end.

(** Equality of two names up to the case of their letters. *)
Fixpoint same_name (a b : string) : bool :=
  match a, b with
  | EmptyString, EmptyString => true
  | String x a', String y b' => Ascii.eqb (tolower x) (tolower y) && same_name a' b'
  | _, _ => false
  end.

(** *** The console loop (lines 407-429) *)

(** Modelled from the spec: the history of the line editor is a ring of
    bounded capacity with the operations "append" and "get most recent";
    the capacity is the 200 that [_cliDebuggerInit] sets. *)
Definition HISTORY_SIZE : nat := 200.

Definition history_enter (line : string) (debugger : CLIDebugger) : CLIDebugger :=
  set_histate (firstn HISTORY_SIZE (line :: histate debugger)) debugger.

(** One turn of the loop for a line that [el_gets] returned; [count] is
    the number of characters of the line. *)
Definition _commandLine_turn (cliDebugger : CLIDebugger) (line : string)
    : IO CLIDebugger :=
  let count := strlen line in
  if Ascii.eqb (deref line) NEWLINE
  then
    match histate cliDebugger with
    | str :: _ =>
        r <- _parse cliDebugger str (size_t (strlen str - 1)) ;;
        ret (snd r)
    | [] => ret cliDebugger
    end
  else
    r <- _parse cliDebugger line (size_t (count - 1)) ;;
    if negb (fst r =? 0) then ret (history_enter line (snd r)) else ret (snd r).

(** The loop, over the lines the line source still holds; [el_gets]
    returns null when there is none.  The lines left unread are
    returned with the debugger. *)
Fixpoint _commandLine_loop (input : list string) (cliDebugger : CLIDebugger)
    {struct input} : IO (CLIDebugger * list string) :=
  match state (d cliDebugger) with
  | DEBUGGER_PAUSED =>
      match input with
      | [] => ret (set_state DEBUGGER_EXITING cliDebugger, [])
      | line :: input' =>
          cliDebugger' <- _commandLine_turn cliDebugger line ;;
          _commandLine_loop input' cliDebugger'
      end
  | _ => ret (cliDebugger, input)
  end.

Definition _commandLine (cliDebugger : CLIDebugger) (input : list string)
    : IO (CLIDebugger * list string) :=
  _printStatus cliDebugger [] ;;
  _commandLine_loop input cliDebugger.

(** *** Tab completion (lines 449-473) *)

(** What [_tabComplete] does: it returns [CC_ERROR], or it inserts text
    at the cursor and returns [CC_REDISPLAY], or it leaves defined
    behaviour (a read behind the end of the command table, a null
    pointer handed to [el_insertstr]). *)
Inductive Completion :=
| CC_ERROR
| CC_REDISPLAY (inserted : string)
| Undefined.

(** [_debuggerCommands[i].name]: [Some None] is the null name of the
    closing entry, [None] an index behind the array. *)
Definition command_name (i : nat) : option (option string) :=
  match nth_error _debuggerCommands i with
  | Some (name, _) => Some (Some name)
  | None =>
      if (i =? List.length _debuggerCommands)%nat then Some None else None
  end.

Inductive Scan :=
| ScanReturn
| ScanStop (cmd : nat) (name : option string).

(** The inner loop: from entry [cmd] on, [entries] being the entries that
    are left. *)
Fixpoint _tabComplete_scan (entries : list (string * DebuggerCommand))
    (cmd : nat) (buffer : string) (len : Z) : Scan :=
  match entries with
  | [] => ScanStop cmd None
  | (name, _) :: entries' =>
      let cmp := strncasecmp name buffer len in
      if cmp >? 0 then ScanReturn
      else if cmp =? 0 then ScanStop cmd (Some name)
      else _tabComplete_scan entries' (S cmd) buffer len
  end.

(** The outer loop, [steps] iterations from [len]. *)
Fixpoint _tabComplete_loop (steps : nat) (cmd : nat) (len : Z)
    (name : option string) (buffer : string)
    : option (nat * Z * option string) :=
  match steps with
  | O => Some (cmd, len, name)
  | S steps' =>
      match _tabComplete_scan (skipn cmd _debuggerCommands) cmd buffer len with
      | ScanReturn => None
      | ScanStop cmd' name' => _tabComplete_loop steps' cmd' (len + 1) name' buffer
      end
  end.

(** [_tabComplete] on a line whose text is [buffer] and whose cursor is
    [cursor] characters into it. *)
Definition _tabComplete (buffer : string) (cursor : nat) : Completion :=
  match _tabComplete_loop (S cursor) 0 0 None buffer with
  | None => CC_ERROR
  | Some (cmd, len, name) =>
      match command_name (cmd + 1) with
      | None => Undefined
      | Some next =>
          if match next with
             | Some next_name => strncasecmp next_name buffer (len - 1) =? 0
             | None => false
             end
          then CC_ERROR
          else
            match name with
            | None => Undefined
            | Some name => CC_REDISPLAY (advance (Z.to_nat (len - 1)) name ++ " ")
            end
      end
  end.

(** The entries of the table that share the typed text as a prefix. *)
Definition shares_prefix (typed name : string) : bool :=
  (String.length typed <=? String.length name)%nat
  && same_name typed (substring 0 (String.length typed) name).

Definition candidates (typed : string) : list string :=
  filter (shares_prefix typed) (map fst _debuggerCommands).

End Console.

(* ------------------------------------------------------------------ *)
(** ** A lexer and a parser for the expression language *)

Module SpecParser.

Local Open Scope string_scope.
Local Open Scope Z_scope.

Inductive Token :=
| LexUInt (uintValue : Z)
| LexOperator (operatorValue : Operation)
| LexIdentifier (identifierValue : string)
| LexError.

Inductive LexState :=
| LEX_ROOT
| LEX_ZERO
| LEX_DECIMAL (next : Z)
| LEX_HEX_START
| LEX_HEX (next : Z)
| LEX_IDENTIFIER (name : string)
| LEX_ERROR.

Definition digit_value (c : ascii) : option Z :=
  let n := char_code c in
  if (48 <=? n) && (n <=? 57) then Some (n - 48) else None.

Definition hex_value (c : ascii) : option Z :=
  let n := char_code (tolower c) in
  if (48 <=? n) && (n <=? 57) then Some (n - 48)
  else if (97 <=? n) && (n <=? 102) then Some (n - 87)
  else None.

Definition operator_of (c : ascii) : option Operation :=
  match c with
  | "="%char => Some OP_ASSIGN
  | "+"%char => Some OP_ADD
  | "-"%char => Some OP_SUBTRACT
  | "*"%char => Some OP_MULTIPLY
  | "/"%char => Some OP_DIVIDE
  | _ => None
  end.

Definition is_letter (c : ascii) : bool :=
  let n := char_code (tolower c) in
  ((97 <=? n) && (n <=? 122)) || (n =? 95).

Definition append_char (s : string) (c : ascii) : string :=
  s ++ String c EmptyString.

(** The token a state stands for when the lexeme ends, if it is
    complete. *)
Definition finish (st : LexState) : list Token :=
  match st with
  | LEX_ROOT => []
  | LEX_ZERO => [LexUInt 0]
  | LEX_DECIMAL v => [LexUInt v]
  | LEX_HEX_START => [LexError]
  | LEX_HEX v => [LexUInt v]
  | LEX_IDENTIFIER s => [LexIdentifier s]
  | LEX_ERROR => [LexError]
  end.

(** One character: the new state and the tokens completed by it. *)
Definition lex_step (st : LexState) (c : ascii) : LexState * list Token :=
  match operator_of c with
  | Some op =>
      match st with
      | LEX_ERROR => (LEX_ERROR, [])
      | LEX_HEX_START => (LEX_ERROR, [])
      | _ => (LEX_ROOT, (finish st ++ [LexOperator op])%list)
      end
  | None =>
      match st with
      | LEX_ROOT =>
          match digit_value c with
          | Some 0 => (LEX_ZERO, [])
          | Some v => (LEX_DECIMAL v, [])
          | None => if is_letter c then (LEX_IDENTIFIER (String c EmptyString), [])
                    else (LEX_ERROR, [])
          end
      | LEX_ZERO =>
          if Ascii.eqb (tolower c) "x"%char then (LEX_HEX_START, [])
          else match digit_value c with
               | Some v => (LEX_DECIMAL v, [])
               | None => (LEX_ERROR, [])
               end
      | LEX_DECIMAL next =>
          match digit_value c with
          | Some v => (LEX_DECIMAL (uint32 (next * 10 + v)), [])
          | None => (LEX_ERROR, [])
          end
      | LEX_HEX_START =>
          match hex_value c with
          | Some v => (LEX_HEX v, [])
          | None => (LEX_ERROR, [])
          end
      | LEX_HEX next =>
          match hex_value c with
          | Some v => (LEX_HEX (uint32 (next * 16 + v)), [])
          | None => (LEX_ERROR, [])
          end
      | LEX_IDENTIFIER s =>
          if is_letter c then (LEX_IDENTIFIER (append_char s c), [])
          else match digit_value c with
               | Some _ => (LEX_IDENTIFIER (append_char s c), [])
               | None => (LEX_ERROR, [])
               end
      | LEX_ERROR => (LEX_ERROR, [])
      end
  end.

(** The scan: left to right, up to the first space, the terminator or
    the end of the [length] available characters. *)
Fixpoint lex_scan (st : LexState) (str : string) (length adjusted : Z)
    (tokens : list Token) : LexState * list Token * Z :=
  if length <? 1 then (st, tokens, adjusted)
  else
    match str with
    | EmptyString => (st, tokens, adjusted)
    | String c str' =>
        if Ascii.eqb c SPACE then (st, tokens, adjusted)
        else
          let (st', done) := lex_step st c in
          lex_scan st' str' (length - 1) (adjusted + 1) (tokens ++ done)%list
    end.

(** Modelled from the spec: parser.c is not among the sources.  Lexing
    scans left to right producing tokens; when a token is left incomplete
    where the text ends (a numeral prefix without digits) the lexer asks
    for more characters than are available, which fails the call. *)
Definition lexExpression (str : string) (length : Z) : list Token * Z :=
  let '(st, tokens, adjusted) := lex_scan LEX_ROOT str length 0 [] in
  match st with
  | LEX_HEX_START => (tokens, length + 1)
  | _ => ((tokens ++ finish st)%list, adjusted)
  end.

Definition operand (t : Token) : option ParseTree :=
  match t with
  | LexUInt v => Some (TOKEN_UINT_TYPE v)
  | LexIdentifier s => Some (TOKEN_IDENTIFIER_TYPE s)
  | _ => None
  end.

Definition is_multiplicative (op : Operation) : bool :=
  match op with
  | OP_MULTIPLY | OP_DIVIDE => true
  | _ => false
  end.

Definition is_additive (op : Operation) : bool :=
  match op with
  | OP_ADD | OP_SUBTRACT => true
  | _ => false
  end.

(** product ::= operand, then any number of "* operand" or "/ operand",
    grouped to the left. *)
Fixpoint product_rest (acc : ParseTree) (ts : list Token)
    : option (ParseTree * list Token) :=
  match ts with
  | LexOperator op :: t :: ts' =>
      if is_multiplicative op
      then match operand t with
           | Some r => product_rest (TOKEN_OPERATOR_TYPE op acc r) ts'
           | None => None
           end
      else Some (acc, ts)
  | _ => Some (acc, ts)
  end.

Definition product (ts : list Token) : option (ParseTree * list Token) :=
  match ts with
  | t :: ts' =>
      match operand t with
      | Some l => product_rest l ts'
      | None => None
      end
  | [] => None
  end.

(** sum ::= product, then any number of "+ product" or "- product",
    grouped to the left. *)
Fixpoint sum_rest (fuel : nat) (acc : ParseTree) (ts : list Token)
    : option (ParseTree * list Token) :=
  match fuel with
  | O => None
  | S fuel' =>
      match ts with
      | LexOperator op :: ts' =>
          if is_additive op
          then match product ts' with
               | Some (r, ts'') => sum_rest fuel' (TOKEN_OPERATOR_TYPE op acc r) ts''
               | None => None
               end
          else Some (acc, ts)
      | _ => Some (acc, ts)
      end
  end.

Definition sum (ts : list Token) : option (ParseTree * list Token) :=
  match product ts with
  | Some (l, ts') => sum_rest (S (List.length ts')) l ts'
  | None => None
  end.

(** assignment ::= sum, or "sum = assignment". *)
Fixpoint assignment (fuel : nat) (ts : list Token) : option ParseTree :=
  match fuel with
  | O => None
  | S fuel' =>
      match sum ts with
      | Some (l, []) => Some l
      | Some (l, LexOperator OP_ASSIGN :: ts') =>
          match assignment fuel' ts' with
          | Some r => Some (TOKEN_OPERATOR_TYPE OP_ASSIGN l r)
          | None => None
          end
      | _ => None
      end
  end.

(** Modelled from the spec: parser.c is not among the sources.  Parsing
    builds a parse tree with the standard precedence of the five
    operators; text that does not parse gives an ERROR token at the
    root. *)
Definition parseLexedExpression (lv : list Token) : ParseTree :=
  match assignment (S (List.length lv)) lv with
  | Some tree => tree
  | None => TOKEN_ERROR_TYPE
  end.

End SpecParser.

(* ------------------------------------------------------------------ *)
(** ** A small machine to run the console on *)

Module Machine.

Local Open Scope string_scope.
Local Open Scope Z_scope.

(** A CPU that is its sixteen registers (as a function of the register
    number) over a memory of zeros, in ARM mode with a clear status
    word; a step moves the program counter one word on.  The engine is
    the list of the addresses it was handed. *)
Definition Core : Type := Z -> Z.

Definition step (c : Core) : Core :=
  fun r => if r =? ARM_PC then uint32 (c r + WORD_SIZE_ARM) else c r.

#[export] Instance collaborators : Collaborators := {|
  ARMCore := Core;
  gprs := fun c r => c r;
  cpsr := fun _ => 0;
  executionMode := fun _ => MODE_ARM;
  loadU8 := fun _ _ => 0;
  loadU16 := fun _ _ => 0;
  load32 := fun _ _ => 0;
  ARMRun := step;
  ARMDisassemble := fun _ _ _ => "andeq r0, r0, r0";
  Engine := list Event;
  ARMDebuggerSetBreakpoint := fun e a => SetBreakpoint a :: e;
  ARMDebuggerClearBreakpoint := fun e a => ClearBreakpoint a :: e;
  ARMDebuggerSetWatchpoint := fun e a => SetWatchpoint a :: e;
  LexVector := list SpecParser.Token;
  lexExpression := SpecParser.lexExpression;
  parseLexedExpression := SpecParser.parseLexedExpression;
  indeterminate := 0
|}.

Definition reset : Core := fun r => if r =? ARM_PC then 8 else 0.

(** A paused session with an empty history. *)
Definition paused : CLIDebugger :=
  {| d := {| state := DEBUGGER_PAUSED; cpu := reset; engine := [] |};
     histate := [] |}.

(** A line as [el_gets] returns it: the text and its newline. *)
Definition entered (text : string) : string := text ++ nl.

(** [_parse] on a line, with the count [_commandLine] passes. *)
Definition run (debugger : CLIDebugger) (text : string) : IO (Z * CLIDebugger) :=
  _parse debugger (entered text) (size_t (strlen (entered text) - 1)).

End Machine.

(* ------------------------------------------------------------------ *)
(** ** Vocabulary of the properties *)

Section Vocabulary.
Context {C : Collaborators}.

Local Open Scope string_scope.
Local Open Scope Z_scope.

(** The handler the table binds to a name. *)
Fixpoint handler_in (commands : list (string * DebuggerCommand)) (name : string)
    : option DebuggerCommand :=
  match commands with
  | [] => None
  | (n, command) :: commands' =>
      if String.eqb n name then Some command else handler_in commands' name
  end.

Definition handler_of : string -> option DebuggerCommand :=
  handler_in _debuggerCommands.

(** The commands that take an address. *)
Definition address_commands : list string :=
  [ "break"; "b"; "delete"; "d"; "watch"; "w"; "rb"; "rh"; "rw" ].

(** The first [cmdLength] characters of the line are the name: same
    length, same characters up to case. *)
Definition entry_matches (line : string) (cmdLength : Z) (name : string) : bool :=
  (strlen name =? cmdLength)
  && same_name name (substring 0 (Z.to_nat cmdLength) line).

Definition names_verb (line : string) (count : Z) (name : string) : bool :=
  entry_matches line (cmdLength_of line count) name.

Definition verb_recognized (commands : list (string * DebuggerCommand))
    (line : string) (count : Z) : bool :=
  existsb (names_verb line count) (map fst commands).

Fixpoint nul_free (s : string) : bool :=
  match s with
  | EmptyString => true
  | String c s' => negb (Ascii.eqb c NUL) && nul_free s'
  end.

(** The segments in front of the first one that fails. *)
Fixpoint leading_successes (segs : list (string * Z)) : list (string * Z) :=
  match segs with
  | [] => []
  | seg :: segs' => if segment_fails seg then [] else seg :: leading_successes segs'
  end.

(** The segments of the argument text of a line. *)
Definition argument_segments (line : string) (count : Z) : list (string * Z) :=
  match strchr line SPACE with
  | Some firstSpace =>
      segments (advance (S firstSpace) line) (size_t (count - Z.of_nat firstSpace - 1))
  | None => []
  end.

Definition is_type (t : DVType) (node : DebugVector) : Prop := type node = t.

(** The handler leaves the history alone. *)
Definition keeps_history (command : DebuggerCommand) : Prop :=
  forall debugger dv, histate (fst (command debugger dv)) = histate debugger.

(** The number of [Run] events of a log. *)
Fixpoint steps_run (es : list Event) : nat :=
  match es with
  | [] => O
  | Run :: es' => S (steps_run es')
  | _ :: es' => steps_run es'
  end.

End Vocabulary.

(** The lookup property in the wording that lets an unmatched verb always
    end in "Command not found". *)
Definition unmatched_verb_always_not_found : Prop :=
  forall (C : Collaborators) (debugger : CLIDebugger) (line : string) (count : Z),
    verb_recognized _debuggerCommands line count = false ->
    _parse debugger line count
    = ((0, debugger), [Stdout ("Command not found" ++ nl)%string]).

(** The sequence property in the wording that gives every ERROR node a
    null next pointer. *)
Definition error_nodes_are_last : Prop :=
  forall (C : Collaborators) (str : string) (length : Z)
         (before : list DebugVector) (node : DebugVector) (next : list DebugVector),
    _DVParse (Some str) length = (before ++ node :: next)%list ->
    type node = DV_ERROR_TYPE ->
    next = [].

(* ------------------------------------------------------------------ *)
(** ** Entry announcements (lines 431-447) *)

(** The reasons the switch of [_reportEntry] distinguishes. *)
Inductive DebuggerEntryReason :=
| DEBUGGER_ENTER_MANUAL
| DEBUGGER_ENTER_ATTACHED
| DEBUGGER_ENTER_BREAKPOINT
| DEBUGGER_ENTER_WATCHPOINT
| DEBUGGER_ENTER_ILLEGAL_OP.

(** [_reportEntry]; the debugger it is handed is not used. *)
Definition _reportEntry (reason : DebuggerEntryReason) : IO unit :=
  match reason with
  | DEBUGGER_ENTER_MANUAL => ret tt
  | DEBUGGER_ENTER_ATTACHED => ret tt
  | DEBUGGER_ENTER_BREAKPOINT => printf ("Hit breakpoint" ++ nl)%string
  | DEBUGGER_ENTER_WATCHPOINT => printf ("Hit watchpoint" ++ nl)%string
  | DEBUGGER_ENTER_ILLEGAL_OP => printf ("Hit illegal opcode" ++ nl)%string
  end.

(* ------------------------------------------------------------------ *)
(** ** Vocabulary of the further properties *)

(** The tree has an identifier or an error token among its leaves. *)
Fixpoint has_unknown_leaf (tree : ParseTree) : bool :=
  match tree with
  | TOKEN_UINT_TYPE _ => false
  | TOKEN_OPERATOR_TYPE _ l r => has_unknown_leaf l || has_unknown_leaf r
  | TOKEN_IDENTIFIER_TYPE _ => true
  | TOKEN_ERROR_TYPE => true
  end.

(** Every literal of the tree is an unsigned 32-bit number; the other
    leaves are free. *)
Fixpoint literals_fit (tree : ParseTree) : bool :=
  match tree with
  | TOKEN_UINT_TYPE v => is_uint32 v
  | TOKEN_OPERATOR_TYPE _ l r => literals_fit l && literals_fit r
  | TOKEN_IDENTIFIER_TYPE _ => true
  | TOKEN_ERROR_TYPE => true
  end.

(** The tree has no division node. *)
Fixpoint division_free (tree : ParseTree) : bool :=
  match tree with
  | TOKEN_OPERATOR_TYPE op l r =>
      match op with
      | OP_DIVIDE => false
      | _ => division_free l && division_free r
      end
  | _ => true
  end.

(** The value of a division-free expression over the integers, without
    any wraparound. *)
Fixpoint integer_value (tree : ParseTree) : Z :=
  match tree with
  | TOKEN_UINT_TYPE v => v
  | TOKEN_OPERATOR_TYPE op l r =>
      match op with
      | OP_ASSIGN => integer_value r
      | OP_ADD => integer_value l + integer_value r
      | OP_SUBTRACT => integer_value l - integer_value r
      | OP_MULTIPLY => integer_value l * integer_value r
      | OP_DIVIDE => 0
      end
  | _ => 0
  end.

(** No two names of the list are equal up to case. *)
Fixpoint distinct_names (names : list string) : bool :=
  match names with
  | [] => true
  | name :: names' =>
      forallb (fun other => negb (same_name name other)) names'
      && distinct_names names'
  end.

(** [a] is [b] or sorts in front of it, in the order of [strncasecmp]. *)
Fixpoint name_le (a b : string) : bool :=
  match a, b with
  | EmptyString, _ => true
  | String _ _, EmptyString => false
  | String x a', String y b' =>
      (char_code (tolower x) <? char_code (tolower y))
      || ((char_code (tolower x) =? char_code (tolower y)) && name_le a' b')
  end.

(** Every name of the list sorts in front of those behind it. *)
Fixpoint sorted_names (names : list string) : bool :=
  match names with
  | [] => true
  | name :: names' => forallb (name_le name) names' && sorted_names names'
  end.

Definition name_in (name : string) (names : list string) : bool :=
  existsb (String.eqb name) names.

Definition resuming_commands : list string := [ "c"; "continue" ]%string.
Definition quitting_commands : list string := [ "q"; "quit" ]%string.
Definition stepping_commands : list string := [ "n"; "next" ]%string.
Definition engine_commands : list string :=
  [ "b"; "break"; "d"; "delete"; "w"; "watch" ]%string.
Definition inspecting_commands : list string :=
  [ "p"; "p/x"; "print"; "print/x"; "i"; "info"; "status"; "dis"; "disasm";
    "rb"; "rh"; "rw"; "x" ]%string.

(** The run state the command of that name leaves. *)
Definition run_state_after (name : string) (s : DebuggerState) : DebuggerState :=
  if name_in name resuming_commands then DEBUGGER_RUNNING
  else if name_in name quitting_commands then DEBUGGER_SHUTDOWN
  else s.

(** The events that change the machine: a step of the CPU, a call of
    the breakpoint engine. *)
Definition changes_machine (e : Event) : bool :=
  match e with
  | Run => true
  | SetBreakpoint _ => true
  | ClearBreakpoint _ => true
  | SetWatchpoint _ => true
  | _ => false
  end.

(** The instruction fetch of [_printLine]. *)
Definition fetch (mode : ExecutionMode) (address : Z) : Event :=
  match mode with
  | MODE_ARM => Load32 address
  | MODE_THUMB => LoadU16 address
  end.

Definition word_size (mode : ExecutionMode) : Z :=
  match mode with
  | MODE_ARM => WORD_SIZE_ARM
  | MODE_THUMB => WORD_SIZE_THUMB
  end.

(** The number of lines written to the output. *)
Fixpoint printed (es : list Event) : nat :=
  match es with
  | [] => O
  | Stdout _ :: es' => S (printed es')
  | _ :: es' => printed es'
  end.

Section FurtherVocabulary.
Context {C : Collaborators}.

Local Open Scope string_scope.
Local Open Scope Z_scope.

(** The value the evaluator returns for the expression of a segment. *)
Definition segment_value (seg : string * Z) : Z :=
  fst (_evaluateParseTree
         (parseLexedExpression (fst (lexExpression (fst seg) (snd seg))))
         (mkDV DV_INT_TYPE 0)).

(** The line, entered at the console, names a command that ends the
    loop. *)
Definition stops_console (line : string) : bool :=
  existsb (names_verb line (size_t (strlen line - 1)))
    (resuming_commands ++ quitting_commands)%list.

(** The line names no command that ends the loop. *)
Definition harmless (line : string) : Prop := stops_console line = false.

(** The name of the entry sorts in front of the text, over the first
    [len] characters. *)
Definition sorts_below (buffer : string) (len : Z)
    (entry : string * DebuggerCommand) : Prop :=
  strncasecmp (fst entry) buffer len < 0.

End FurtherVocabulary.

(* ------------------------------------------------------------------ *)
(** * Properties *)

(** ** Expression evaluation *)

Section Evaluation.

Lemma is_uint32_range v : is_uint32 v = true <-> 0 <= v <= UINT32_MAX.
Proof. unfold is_uint32. rewrite andb_true_iff, !Z.leb_le. tauto. Qed.

Lemma uint32_wrapping_add a b :
  0 <= a <= UINT32_MAX -> 0 <= b <= UINT32_MAX ->
  uint32 (a + b) = wrapping_add a b /\ 0 <= wrapping_add a b <= UINT32_MAX.
Proof.
  unfold uint32, wrapping_add, UINT32_MAX. intros Ha Hb.
  change (2 ^ 32) with 4294967296.
  destruct (Z.leb_spec (a + b) 4294967295).
  - rewrite Z.mod_small by lia. lia.
  - replace (a + b) with ((a + b - 4294967296) + 1 * 4294967296) at 1 by lia.
    rewrite Z.mod_add by lia. rewrite Z.mod_small by lia. lia.
Qed.

Lemma uint32_wrapping_sub a b :
  0 <= a <= UINT32_MAX -> 0 <= b <= UINT32_MAX ->
  uint32 (a - b) = wrapping_sub a b /\ 0 <= wrapping_sub a b <= UINT32_MAX.
Proof.
  unfold uint32, wrapping_sub, UINT32_MAX. intros Ha Hb.
  change (2 ^ 32) with 4294967296.
  destruct (Z.leb_spec b a).
  - rewrite Z.mod_small by lia. lia.
  - replace (a - b) with ((a - b + 4294967296) + (-1) * 4294967296) at 1 by lia.
    rewrite Z.mod_add by lia. rewrite Z.mod_small by lia. lia.
Qed.

Lemma uint32_wrapping_mul a b :
  uint32 (a * b) = wrapping_mul a b /\ 0 <= wrapping_mul a b <= UINT32_MAX.
Proof.
  unfold uint32, wrapping_mul, UINT32_MAX.
  change (2 ^ 32) with 4294967296. change (4294967295 + 1) with 4294967296.
  split; [reflexivity|].
  pose proof (Z.mod_pos_bound (a * b) 4294967296). lia.
Qed.

Lemma uint32_quotient a b :
  0 <= a <= UINT32_MAX -> 0 < b -> 0 <= a / b <= UINT32_MAX.
Proof.
  intros Ha Hb. split.
  - apply Z.div_pos; lia.
  - assert (a / b <= a) by (apply Z.div_le_upper_bound; nia). lia.
Qed.

(** The value of the reference arithmetic is the value the evaluator
    returns, with [dv] untouched. *)
Lemma evaluate_refines_arithmetic tree :
  forall v, uint32_arithmetic tree = Some v ->
  0 <= v <= UINT32_MAX /\ forall dv, _evaluateParseTree tree dv = (v, dv).
Proof.
  induction tree as [u | op l IHl r IHr | s | ]; simpl; intros v Hv;
    try discriminate.
  - destruct (is_uint32 u) eqn:Hu; [|discriminate].
    injection Hv as <-. apply is_uint32_range in Hu. split; [exact Hu|reflexivity].
  - destruct (uint32_arithmetic l) as [a|]; [|discriminate].
    destruct (uint32_arithmetic r) as [b|]; [|discriminate].
    destruct (IHl a eq_refl) as [Ha El]. destruct (IHr b eq_refl) as [Hb Er].
    assert (Hstep : forall dv,
      _evaluateParseTree (TOKEN_OPERATOR_TYPE op l r) dv
      = _performOperation op a b dv).
    { intro dv. simpl. rewrite El, Er. reflexivity. }
    simpl in Hstep.
    destruct op; simpl in Hv.
    + injection Hv as <-. split; [exact Hb|]. intro dv. rewrite Hstep. reflexivity.
    + injection Hv as <-. destruct (uint32_wrapping_add a b Ha Hb) as [E R].
      split; [exact R|]. intro dv. rewrite Hstep. simpl. rewrite E. reflexivity.
    + injection Hv as <-. destruct (uint32_wrapping_sub a b Ha Hb) as [E R].
      split; [exact R|]. intro dv. rewrite Hstep. simpl. rewrite E. reflexivity.
    + injection Hv as <-. destruct (uint32_wrapping_mul a b) as [E R].
      split; [exact R|]. intro dv. rewrite Hstep. simpl. rewrite E. reflexivity.
    + destruct (b =? 0) eqn:Hz; [discriminate|]. injection Hv as <-.
      apply Z.eqb_neq in Hz. split; [apply uint32_quotient; lia|].
      intro dv. rewrite Hstep. simpl.
      destruct (b =? 0) eqn:Hz'; [apply Z.eqb_eq in Hz'; contradiction|reflexivity].
Qed.

(** A well-formed tree without a division by zero has a value in the
    reference arithmetic. *)
Lemma arithmetic_defined tree :
  well_formed tree = true -> divides_by_zero tree = false ->
  exists v, uint32_arithmetic tree = Some v.
Proof.
  induction tree as [u | op l IHl r IHr | s | ]; simpl; intros Hwf Hdz;
    try discriminate.
  - rewrite Hwf. eauto.
  - apply andb_true_iff in Hwf as [Hl Hr].
    apply orb_false_iff in Hdz as [Hdz Hdr].
    apply orb_false_iff in Hdz as [Hop Hdl].
    destruct (IHl Hl Hdl) as [a Ea]. destruct (IHr Hr Hdr) as [b Eb].
    rewrite Ea, Eb.
    destruct op; eauto.
    destruct (evaluate_refines_arithmetic r b Eb) as [_ Er].
    rewrite Er in Hop. simpl in Hop. rewrite Hop. eauto.
Qed.

(** C4.  For every well-formed parse tree (unsigned 32-bit literals under
    the five operators) that contains no division by zero,
    [_evaluateParseTree] returns the value of unsigned 32-bit arithmetic
    with wraparound modulo 2^32, that value is an unsigned 32-bit number,
    and the vector it was given comes back unchanged: the error flag
    stays clear, whatever overflows. *)
Theorem evaluate_is_uint32_arithmetic :
  forall (tree : ParseTree) (dv : DebugVector),
    well_formed tree = true ->
    divides_by_zero tree = false ->
    exists v,
      uint32_arithmetic tree = Some v
      /\ _evaluateParseTree tree dv = (v, dv)
      /\ 0 <= v <= UINT32_MAX
      /\ type (snd (_evaluateParseTree tree dv)) = type dv.
Proof.
  intros tree dv Hwf Hdz.
  destruct (arithmetic_defined tree Hwf Hdz) as [v Hv].
  destruct (evaluate_refines_arithmetic tree v Hv) as [Hr He].
  exists v. rewrite He. auto.
Qed.

(** The value an evaluation returns does not depend on the vector. *)
Lemma evaluate_value_independent tree :
  forall dv dv', fst (_evaluateParseTree tree dv) = fst (_evaluateParseTree tree dv').
Proof.
  induction tree as [u | op l IHl r IHr | s | ]; simpl; intros dv dv'; try reflexivity.
  specialize (IHl dv dv').
  destruct (_evaluateParseTree l dv) as [a d1].
  destruct (_evaluateParseTree l dv') as [a' d1']. simpl in IHl. subst a'.
  specialize (IHr d1 d1').
  destruct (_evaluateParseTree r d1) as [b d2].
  destruct (_evaluateParseTree r d1') as [b' d2']. simpl in IHr. subst b'.
  destruct op; simpl; try reflexivity.
  destruct (b =? 0); reflexivity.
Qed.

Lemma performOperation_sticky op a b dv :
  type dv = DV_ERROR_TYPE ->
  type (snd (_performOperation op a b dv)) = DV_ERROR_TYPE.
Proof.
  intro H. destruct op; simpl; auto. destruct (b =? 0); simpl; auto.
Qed.

(** Once set, the error flag stays set. *)
Lemma evaluate_sticky tree :
  forall dv, type dv = DV_ERROR_TYPE ->
  type (snd (_evaluateParseTree tree dv)) = DV_ERROR_TYPE.
Proof.
  induction tree as [u | op l IHl r IHr | s | ]; simpl; intros dv H; auto.
  specialize (IHl dv H). destruct (_evaluateParseTree l dv) as [a d1].
  specialize (IHr d1 IHl). destruct (_evaluateParseTree r d1) as [b d2].
  apply performOperation_sticky. exact IHr.
Qed.

(** An evaluation only ever changes the type of the vector, and only to
    ERROR. *)
Lemma evaluate_frame tree :
  forall dv,
    snd (_evaluateParseTree tree dv) = dv
    \/ snd (_evaluateParseTree tree dv) = set_type DV_ERROR_TYPE dv.
Proof.
  induction tree as [u | op l IHl r IHr | s | ]; simpl; intros dv; auto.
  specialize (IHl dv). destruct (_evaluateParseTree l dv) as [a d1]. simpl in IHl.
  specialize (IHr d1). destruct (_evaluateParseTree r d1) as [b d2]. simpl in IHr.
  assert (H2 : d2 = dv \/ d2 = set_type DV_ERROR_TYPE dv).
  { destruct IHl as [-> | ->]; destruct IHr as [-> | ->]; auto. }
  destruct op; simpl; auto.
  destruct (b =? 0); simpl; auto.
  right. destruct H2 as [-> | ->]; reflexivity.
Qed.

(** C5.  A tree with a division node whose right child evaluates to zero
    evaluates to ERROR from every vector, wherever the division sits in
    the tree: the failure reaches every ancestor and the root.  Operator
    nodes evaluate both children unconditionally: whenever the left or
    the right child alone evaluates to ERROR, so does the node, for each
    of the five operators. *)
Theorem division_by_zero_fails_everywhere :
  (forall (tree : ParseTree) (dv : DebugVector),
      divides_by_zero tree = true ->
      type (snd (_evaluateParseTree tree dv)) = DV_ERROR_TYPE)
  /\ (forall (op : Operation) (lhs rhs : ParseTree) (dv : DebugVector),
      type (snd (_evaluateParseTree lhs dv)) = DV_ERROR_TYPE
      \/ type (snd (_evaluateParseTree rhs dv)) = DV_ERROR_TYPE ->
      type (snd (_evaluateParseTree (TOKEN_OPERATOR_TYPE op lhs rhs) dv))
      = DV_ERROR_TYPE).
Proof.
  split.
  - induction tree as [u | op l IHl r IHr | s | ]; simpl; intros dv H;
      try discriminate.
    apply orb_true_iff in H as [H | Hr].
    + apply orb_true_iff in H as [Hop | Hl].
      * destruct op; try discriminate.
        apply Z.eqb_eq in Hop.
        destruct (_evaluateParseTree l dv) as [a d1].
        rewrite (evaluate_value_independent r _ d1) in Hop.
        destruct (_evaluateParseTree r d1) as [b d2]. simpl in Hop. subst b.
        reflexivity.
      * specialize (IHl dv Hl). destruct (_evaluateParseTree l dv) as [a d1].
        simpl in IHl. pose proof (evaluate_sticky r d1 IHl) as Hs.
        destruct (_evaluateParseTree r d1) as [b d2].
        apply performOperation_sticky. exact Hs.
    + destruct (_evaluateParseTree l dv) as [a d1].
      specialize (IHr d1 Hr). destruct (_evaluateParseTree r d1) as [b d2].
      apply performOperation_sticky. exact IHr.
  - intros op lhs rhs dv H. simpl.
    pose proof (evaluate_frame lhs dv) as Hf.
    destruct (_evaluateParseTree lhs dv) as [a d1] eqn:El. simpl in H, Hf.
    assert (H1 : type (snd (_evaluateParseTree rhs d1)) = DV_ERROR_TYPE).
    { destruct H as [H | H].
      - apply evaluate_sticky. exact H.
      - destruct Hf as [-> | ->]; [exact H|].
        apply evaluate_sticky. reflexivity. }
    destruct (_evaluateParseTree rhs d1) as [b d2].
    apply performOperation_sticky. exact H1.
Qed.

End Evaluation.

(* ------------------------------------------------------------------ *)
(** ** C strings *)

Section Strings.

Local Open Scope string_scope.
Local Open Scope Z_scope.

Lemma advance_length n : forall s,
  (String.length (advance n s) <= String.length s)%nat.
Proof.
  induction n as [|n IH]; intros [|c s]; simpl; try lia.
  specialize (IH s). lia.
Qed.

Lemma advance_behind_space s :
  Ascii.eqb (deref s) SPACE = true ->
  (String.length (advance 1 s) < String.length s)%nat.
Proof.
  destruct s as [|c s]; simpl; [discriminate|lia].
Qed.

Lemma char_code_inj a b : char_code a = char_code b -> a = b.
Proof.
  unfold char_code. intro H. apply N2Z.inj in H.
  rewrite <- (ascii_N_embedding a), <- (ascii_N_embedding b). congruence.
Qed.

Lemma tolower_NUL c : Ascii.eqb (tolower c) (tolower NUL) = true -> c = NUL.
Proof.
  destruct c as [[] [] [] [] [] [] [] []]; vm_compute; congruence.
Qed.

Lemma strlen_String c s : strlen (String c s) = 1 + strlen s.
Proof. unfold strlen. simpl String.length. lia. Qed.

Lemma strlen_nonneg s : 0 <= strlen s.
Proof. unfold strlen. lia. Qed.

Lemma strncasecmp_pos s1 s2 n :
  0 < n ->
  strncasecmp s1 s2 n =
    match s1 with
    | EmptyString => char_code (tolower NUL) - char_code (tolower (deref s2))
    | String c1 s1' =>
        if Ascii.eqb (tolower c1) (tolower (deref s2))
        then strncasecmp s1' (advance 1 s2) (n - 1)
        else char_code (tolower c1) - char_code (tolower (deref s2))
    end.
Proof.
  intro H. destruct s1; simpl; destruct (Z.leb_spec n 0); try lia; reflexivity.
Qed.

Lemma strncasecmp_zero s1 s2 : strncasecmp s1 s2 0 = 0.
Proof. destruct s1; reflexivity. Qed.

(** On a name without NUL characters, a zero of [strncasecmp] over the
    length of the name is equality up to case with the line's first
    characters. *)
Lemma strncasecmp_same_name name : forall line,
  nul_free name = true ->
  (strncasecmp name line (strlen name) =? 0)
  = same_name name (substring 0 (String.length name) line).
Proof.
  induction name as [|c name IH]; intros line Hn.
  - rewrite strncasecmp_zero. destruct line; reflexivity.
  - simpl in Hn. apply andb_true_iff in Hn as [Hc Hn].
    rewrite strncasecmp_pos by (rewrite strlen_String; pose proof (strlen_nonneg name); lia).
    replace (strlen (String c name) - 1) with (strlen name) by (rewrite strlen_String; lia).
    destruct line as [|x line]; simpl deref; simpl String.length; simpl substring.
    + simpl same_name.
      destruct (Ascii.eqb (tolower c) (tolower NUL)) eqn:E.
      * apply tolower_NUL in E. subst c. discriminate.
      * apply Z.eqb_neq. intro H.
        assert (tolower c = tolower NUL) by (apply char_code_inj; lia).
        rewrite H0, Ascii.eqb_refl in E. discriminate.
    + simpl same_name. simpl advance.
      destruct (Ascii.eqb (tolower c) (tolower x)) eqn:E; simpl.
      * apply IH. exact Hn.
      * apply Z.eqb_neq. intro H.
        assert (tolower c = tolower x) by (apply char_code_inj; lia).
        rewrite H0, Ascii.eqb_refl in E. discriminate.
Qed.

End Strings.

(* ------------------------------------------------------------------ *)
(** ** The argument list builder *)

Section Builder.
Context {C : Collaborators}.

Local Open Scope string_scope.
Local Open Scope Z_scope.

Lemma _DVParse_rec_S fuel str length :
  _DVParse_rec (S fuel) (Some str) length =
  if length <? 1 then []
  else
    let (dvTemp, adjusted) := _DVParse_segment str length in
    let rest := advance (Z.to_nat adjusted) str in
    if DVType_eqb (type dvTemp) DV_ERROR_TYPE
    then [ mkDV DV_ERROR_TYPE indeterminate ]
    else if Ascii.eqb (deref rest) SPACE
    then
      let next := _DVParse_rec fuel (Some (advance 1 rest))
                    (size_t (size_t (length - adjusted) - 1)) in
      match next with
      | node :: _ =>
          if DVType_eqb (type node) DV_ERROR_TYPE
          then set_type DV_ERROR_TYPE dvTemp :: next
          else dvTemp :: next
      | [] => dvTemp :: next
      end
    else [ dvTemp ].
Proof. reflexivity. Qed.

Lemma segments_rec_S fuel str length :
  segments_rec (S fuel) str length =
  if length <? 1 then []
  else
    let adjusted := snd (lexExpression str length) in
    let rest := advance (Z.to_nat adjusted) str in
    (str, length)
    :: (if Ascii.eqb (deref rest) SPACE
        then segments_rec fuel (advance 1 rest)
               (size_t (size_t (length - adjusted) - 1))
        else []).
Proof. reflexivity. Qed.

Lemma _DVParse_segment_adjusted str length :
  snd (_DVParse_segment str length) = snd (lexExpression str length).
Proof.
  unfold _DVParse_segment. destruct (lexExpression str length) as [lv adjusted].
  reflexivity.
Qed.

(** The segment's vector is an integer or an error, never text. *)
Lemma _DVParse_segment_type str length :
  type (fst (_DVParse_segment str length)) = DV_INT_TYPE
  \/ type (fst (_DVParse_segment str length)) = DV_ERROR_TYPE.
Proof.
  unfold _DVParse_segment. destruct (lexExpression str length) as [lv adjusted].
  set (dv0 := if adjusted >? length then _ else _).
  assert (H0 : type dv0 = DV_INT_TYPE \/ type dv0 = DV_ERROR_TYPE).
  { subst dv0. destruct (adjusted >? length); simpl; auto. }
  assert (He : forall t, type (fst (let (value, dvTemp) := _evaluateParseTree t dv0 in
                                    set_intValue (int32 value) dvTemp, adjusted)) = DV_INT_TYPE
                      \/ type (fst (let (value, dvTemp) := _evaluateParseTree t dv0 in
                                    set_intValue (int32 value) dvTemp, adjusted)) = DV_ERROR_TYPE).
  { intro t. pose proof (evaluate_frame t dv0) as Hf.
    destruct (_evaluateParseTree t dv0) as [v d1]. simpl in *.
    destruct Hf as [-> | ->]; simpl; auto. }
  destruct (parseLexedExpression lv); try apply He. simpl. auto.
Qed.

(** A segment on which the lexer consumed more than was available
    fails. *)
Lemma overrun_fails str length :
  snd (lexExpression str length) > length ->
  segment_fails (str, length) = true.
Proof.
  unfold segment_fails, _DVParse_segment. simpl fst. simpl snd.
  destruct (lexExpression str length) as [lv adjusted]. simpl. intro H.
  assert (E : (adjusted >? length) = true) by (apply Z.gtb_lt; lia).
  rewrite E.
  destruct (parseLexedExpression lv) eqn:Et; try reflexivity.
  - pose proof (evaluate_sticky (TOKEN_OPERATOR_TYPE operatorValue p1 p2)
                  (set_type DV_ERROR_TYPE (mkDV DV_INT_TYPE 0)) eq_refl) as Hs.
    destruct (_evaluateParseTree _ _) as [v d1]. simpl in *. rewrite Hs. reflexivity.
Qed.

(** The fuel of [_DVParse] is enough: more of it changes nothing. *)
Lemma _DVParse_rec_fuel : forall fuel1 fuel2 str length,
  (String.length str < fuel1)%nat -> (String.length str < fuel2)%nat ->
  _DVParse_rec fuel1 (Some str) length = _DVParse_rec fuel2 (Some str) length.
Proof.
  induction fuel1 as [|fuel1 IH]; intros [|fuel2] str length H1 H2; try lia.
  rewrite !_DVParse_rec_S.
  destruct (length <? 1); [reflexivity|].
  destruct (_DVParse_segment str length) as [dvTemp adjusted]. cbv zeta.
  destruct (DVType_eqb (type dvTemp) DV_ERROR_TYPE); [reflexivity|].
  destruct (Ascii.eqb (deref (advance (Z.to_nat adjusted) str)) SPACE) eqn:E;
    [|reflexivity].
  pose proof (advance_behind_space _ E).
  pose proof (advance_length (Z.to_nat adjusted) str).
  rewrite (IH fuel2) by lia. reflexivity.
Qed.

Lemma segments_rec_fuel : forall fuel1 fuel2 str length,
  (String.length str < fuel1)%nat -> (String.length str < fuel2)%nat ->
  segments_rec fuel1 str length = segments_rec fuel2 str length.
Proof.
  induction fuel1 as [|fuel1 IH]; intros [|fuel2] str length H1 H2; try lia.
  rewrite !segments_rec_S.
  destruct (length <? 1); [reflexivity|]. cbv zeta.
  destruct (Ascii.eqb (deref (advance _ str)) SPACE) eqn:E; [|reflexivity].
  pose proof (advance_behind_space _ E).
  pose proof (advance_length (Z.to_nat (snd (lexExpression str length))) str).
  rewrite (IH fuel2) by lia. reflexivity.
Qed.

(** The shape of a built sequence, against the segments of its text. *)
Lemma _DVParse_rec_shape : forall fuel str length,
  let dv := _DVParse_rec fuel (Some str) length in
  let segs := segments_rec fuel str length in
  (existsb segment_fails segs = false ->
     Forall (is_type DV_INT_TYPE) dv
     /\ List.length dv = List.length segs)
  /\ (existsb segment_fails segs = true ->
     Forall (is_type DV_ERROR_TYPE) dv
     /\ List.length dv = S (List.length (leading_successes segs))
     /\ exists before, dv = (before ++ [ mkDV DV_ERROR_TYPE indeterminate ])%list).
Proof.
  induction fuel as [|fuel IH]; intros str length.
  - simpl. split; [auto | discriminate].
  - cbv zeta. rewrite _DVParse_rec_S, segments_rec_S.
    destruct (length <? 1); [simpl; split; [auto | discriminate]|].
    cbv zeta.
    pose proof (_DVParse_segment_adjusted str length) as Ha.
    pose proof (_DVParse_segment_type str length) as Ht.
    assert (Hsf : segment_fails (str, length)
                  = DVType_eqb (type (fst (_DVParse_segment str length))) DV_ERROR_TYPE)
      by reflexivity.
    cbn [existsb leading_successes].
    destruct (_DVParse_segment str length) as [dvTemp adjusted].
    cbn [fst snd] in Ha, Ht, Hsf. subst adjusted. rewrite Hsf.
    set (adjusted := snd (lexExpression str length)).
    destruct (DVType_eqb (type dvTemp) DV_ERROR_TYPE) eqn:Ee; cbn [orb].
    + split; [discriminate|]. intros _.
      split; [repeat constructor|]. split; [reflexivity|].
      exists []. reflexivity.
    + assert (Hint : type dvTemp = DV_INT_TYPE).
      { destruct Ht as [Ht | Ht]; [exact Ht|]. rewrite Ht in Ee. discriminate. }
      destruct (Ascii.eqb (deref (advance (Z.to_nat adjusted) str)) SPACE).
      * specialize (IH (advance 1 (advance (Z.to_nat adjusted) str))
                       (size_t (size_t (length - adjusted) - 1))).
        cbv zeta in IH. destruct IH as [IHok IHerr].
        set (next := _DVParse_rec fuel _ _) in *.
        set (segs := segments_rec fuel _ _) in *.
        split.
        -- intro Hs. destruct (IHok Hs) as [Hall Hlen].
           assert (Hn : match next with
                        | [] => dvTemp :: next
                        | node :: _ =>
                            if DVType_eqb (type node) DV_ERROR_TYPE
                            then set_type DV_ERROR_TYPE dvTemp :: next
                            else dvTemp :: next
                        end = dvTemp :: next).
           { destruct next as [|node next']; [reflexivity|].
             inversion Hall as [|? ? Hnode _]. unfold is_type in Hnode.
             rewrite Hnode. reflexivity. }
           rewrite Hn. split; [constructor; assumption|].
           cbn [List.length]. lia.
        -- intro Hs. destruct (IHerr Hs) as [Hall [Hlen [before Hb]]].
           destruct next as [|node next'] eqn:En; [cbn [List.length] in Hlen; lia|].
           inversion Hall as [|? ? Hnode _]. unfold is_type in Hnode.
           rewrite Hnode. cbn [DVType_eqb].
           split; [constructor; [reflexivity | assumption]|].
           split; [cbn [List.length] in *; lia|].
           exists (set_type DV_ERROR_TYPE dvTemp :: before).
           rewrite Hb. reflexivity.
      * cbn [existsb List.length]. split; [|discriminate]. intros _.
        split; [repeat constructor; assumption | reflexivity].
Qed.

Lemma _DVParse_shape str length :
  let dv := _DVParse (Some str) length in
  let segs := segments str length in
  (existsb segment_fails segs = false ->
     Forall (is_type DV_INT_TYPE) dv
     /\ List.length dv = List.length segs)
  /\ (existsb segment_fails segs = true ->
     Forall (is_type DV_ERROR_TYPE) dv
     /\ List.length dv = S (List.length (leading_successes segs))
     /\ exists before, dv = (before ++ [ mkDV DV_ERROR_TYPE indeterminate ])%list).
Proof. apply _DVParse_rec_shape. Qed.

Lemma error_head_all_error dv :
  Forall (is_type DV_ERROR_TYPE) dv -> dv <> [] -> error_head dv = true.
Proof.
  intros H Hne. destruct dv as [|node dv]; [contradiction|].
  inversion H as [|? ? Hnode _]. simpl. unfold is_type in Hnode.
  rewrite Hnode. reflexivity.
Qed.

Lemma error_head_all_int dv :
  Forall (is_type DV_INT_TYPE) dv -> error_head dv = false.
Proof.
  intros H. destruct dv as [|node dv]; [reflexivity|].
  inversion H as [|? ? Hnode _]. simpl. unfold is_type in Hnode.
  rewrite Hnode. reflexivity.
Qed.

End Builder.

(* ------------------------------------------------------------------ *)
(** ** The dispatcher, the handlers and the console loop *)

Section Dispatcher.
Context {C : Collaborators}.

Local Open Scope string_scope.
Local Open Scope Z_scope.

Lemma fst_bind {A B} (m : IO A) (k : A -> IO B) :
  fst (bind m k) = fst (k (fst m)).
Proof. unfold bind. destruct m as [a e1]. simpl. destruct (k a). reflexivity. Qed.

Lemma snd_bind {A B} (m : IO A) (k : A -> IO B) :
  snd (bind m k) = (snd m ++ snd (k (fst m)))%list.
Proof. unfold bind. destruct m as [a e1]. simpl. destruct (k a). reflexivity. Qed.

Lemma bind_ret {A B} (m : IO A) (f : A -> B) :
  bind m (fun a => ret (f a)) = (f (fst m), snd m).
Proof. unfold bind, ret. destruct m as [a e1]. rewrite app_nil_r. reflexivity. Qed.

(** What the lookup loop does: the first entry whose name is the verb is
    called, and without one the verb is reported. *)
Lemma _parse_lookup_find commands :
  forall debugger line cmdLength dv,
  forallb nul_free (map fst commands) = true ->
  _parse_lookup commands debugger line cmdLength dv =
  match find (fun entry => entry_matches line cmdLength (fst entry)) commands with
  | Some (_, command) => (debugger' <- command debugger dv ;; ret (1, debugger'))
  | None => (printf ("Command not found" ++ nl) ;; ret (0, debugger))
  end.
Proof.
  induction commands as [|[name command] commands IH]; intros debugger line n dv Hn.
  - reflexivity.
  - cbn [map fst forallb] in Hn. apply andb_true_iff in Hn as [Hname Hn].
    cbn [_parse_lookup find fst]. unfold entry_matches at 1.
    destruct (strlen name =? n) eqn:El; cbn [negb andb].
    + apply Z.eqb_eq in El. subst n.
      rewrite (strncasecmp_same_name name line Hname).
      unfold strlen. rewrite Nat2Z.id.
      destruct (same_name name (substring 0 (String.length name) line)).
      * reflexivity.
      * apply IH. exact Hn.
    + apply IH. exact Hn.
Qed.

Lemma table_nul_free : forallb nul_free (map fst _debuggerCommands) = true.
Proof. reflexivity. Qed.

Lemma find_some_recognized (commands : list (string * DebuggerCommand))
    line cmdLength :
  forall name command,
  find (fun entry => entry_matches line cmdLength (fst entry)) commands
  = Some (name, command) ->
  In (name, command) commands /\ entry_matches line cmdLength name = true.
Proof.
  intros name command H. apply find_some in H. exact H.
Qed.

Lemma find_existsb (commands : list (string * DebuggerCommand))
    line cmdLength :
  existsb (entry_matches line cmdLength) (map fst commands)
  = match find (fun entry => entry_matches line cmdLength (fst entry)) commands with
    | Some _ => true
    | None => false
    end.
Proof.
  induction commands as [|[name command] commands IH]; [reflexivity|].
  cbn [map fst existsb find].
  destruct (entry_matches line cmdLength name); [reflexivity|exact IH].
Qed.

(** [_parse], stage by stage. *)
Lemma _parse_with_stages commands debugger line count :
  forallb nul_free (map fst commands) = true ->
  _parse_with commands debugger line count =
  if error_head (arguments_of line count)
  then (printf ("Parse error" ++ nl) ;; ret (0, debugger))
  else
    match find (fun entry => names_verb line count (fst entry)) commands with
    | Some (_, command) =>
        (debugger' <- command debugger (arguments_of line count) ;; ret (1, debugger'))
    | None => (printf ("Command not found" ++ nl) ;; ret (0, debugger))
    end.
Proof.
  intro Hn. unfold _parse_with, arguments_of, names_verb, cmdLength_of.
  destruct (strchr line SPACE) as [firstSpace|].
  - destruct (error_head _); [reflexivity|].
    apply _parse_lookup_find. exact Hn.
  - cbn [error_head]. apply _parse_lookup_find. exact Hn.
Qed.

(** C1.  When a segment of the argument text of a line fails to evaluate,
    the argument sequence [_DVParse] builds has ERROR type at its head
    (and at every node), and the dispatcher prints "Parse error" and
    returns 0 with the debugger as it was.  This is so for every command
    table, hence no handler is called; [_parse] is the case of
    [_debuggerCommands]. *)
Theorem failing_segment_is_parse_error :
  forall (commands : list (string * DebuggerCommand)) (debugger : CLIDebugger)
         (line : string) (count : Z),
    existsb segment_fails (argument_segments line count) = true ->
    error_head (arguments_of line count) = true
    /\ Forall (is_type DV_ERROR_TYPE) (arguments_of line count)
    /\ _parse_with commands debugger line count
       = ((0, debugger), [Stdout ("Parse error" ++ nl)])
    /\ _parse debugger line count
       = ((0, debugger), [Stdout ("Parse error" ++ nl)]).
Proof.
  intros commands debugger line count H.
  assert (He : error_head (arguments_of line count) = true
               /\ Forall (is_type DV_ERROR_TYPE) (arguments_of line count)).
  { unfold argument_segments in H. unfold arguments_of.
    destruct (strchr line SPACE) as [firstSpace|]; [|discriminate].
    destruct (_DVParse_shape (advance (S firstSpace) line)
                (size_t (count - Z.of_nat firstSpace - 1))) as [_ Herr].
    destruct (Herr H) as [Hall [Hlen _]].
    split; [|exact Hall].
    apply error_head_all_error; [exact Hall|].
    intro E. rewrite E in Hlen. discriminate. }
  destruct He as [He Hall].
  assert (Hp : forall cmds, _parse_with cmds debugger line count
                            = ((0, debugger), [Stdout ("Parse error" ++ nl)])).
  { intro cmds. unfold _parse_with. unfold arguments_of in He.
    destruct (strchr line SPACE) as [firstSpace|]; [|discriminate].
    rewrite He. reflexivity. }
  repeat split; auto. apply Hp.
Qed.

(** C2, amended.  [_parse] calls a handler, and returns 1, only through an
    entry whose name has the length of the verb and its characters up to
    case, so a verb that is a strict prefix of a name never selects that
    name.  When no entry is such, [_parse] returns 0; it then prints
    "Command not found" if the argument text built without error, and
    "Parse error" if it did not. *)
Theorem lookup_is_exact :
  forall (debugger : CLIDebugger) (line : string) (count : Z),
    (fst (fst (_parse debugger line count)) = 1 ->
       exists name command,
         find (fun entry => names_verb line count (fst entry)) _debuggerCommands
         = Some (name, command)
         /\ In (name, command) _debuggerCommands
         /\ strlen name = cmdLength_of line count
         /\ same_name name (verb_of line count) = true
         /\ _parse debugger line count
            = (debugger' <- command debugger (arguments_of line count) ;;
               ret (1, debugger')))
    /\ (verb_recognized _debuggerCommands line count = false ->
         fst (fst (_parse debugger line count)) = 0)
    /\ (verb_recognized _debuggerCommands line count = false ->
        error_head (arguments_of line count) = false ->
         _parse debugger line count
         = ((0, debugger), [Stdout ("Command not found" ++ nl)]))
    /\ (verb_recognized _debuggerCommands line count = false ->
        error_head (arguments_of line count) = true ->
         _parse debugger line count
         = ((0, debugger), [Stdout ("Parse error" ++ nl)])).
Proof.
  intros debugger line count.
  unfold _parse. rewrite (_parse_with_stages _ debugger line count table_nul_free).
  unfold verb_recognized, names_verb. rewrite find_existsb.
  destruct (error_head (arguments_of line count)) eqn:He.
  - repeat split; try reflexivity; try discriminate.
  - destruct (find _ _debuggerCommands) as [[name command]|] eqn:Ef.
    + repeat split; try discriminate.
      intros _. exists name, command.
      destruct (find_some_recognized _ _ _ _ _ Ef) as [Hin Hm].
      unfold entry_matches in Hm. apply andb_true_iff in Hm as [Hl Hs].
      apply Z.eqb_eq in Hl. repeat split; auto.
    + repeat split; try reflexivity; try discriminate.
Qed.

End Dispatcher.

Section Handlers.
Context {C : Collaborators}.

Local Open Scope string_scope.
Local Open Scope Z_scope.

(** The six handlers that take an address open with the same guard. *)
Ltac unfold_address_handlers :=
  cbv beta delta [_setBreakpoint _clearBreakpoint _setWatchpoint
                  _readByte _readHalfword _readWord].

(** The head test of the address handlers, in words. *)
Lemma no_int_head_iff dv :
  no_int_head dv = true <->
  dv = [] \/ exists node next, dv = node :: next /\ type node <> DV_INT_TYPE.
Proof.
  destruct dv as [|node next]; simpl.
  - split; auto.
  - split.
    + intro H. right. exists node, next. split; [reflexivity|].
      intro E. rewrite E in H. discriminate.
    + intros [H | [n [x [E Hn]]]]; [discriminate|].
      injection E as <- <-. destruct (type node); try reflexivity. contradiction.
Qed.

(** C7.  Each command that takes an address (break, b, delete, d, watch,
    w, rb, rh, rw) is bound to a handler that, given an empty argument
    sequence or one whose head is not an integer, prints "Arguments
    missing" and returns: the debugger is unchanged and the output is
    the only event, so no memory is read and no breakpoint or watchpoint
    is touched. *)
Theorem address_commands_need_an_address :
  forall name : string,
    In name address_commands ->
    exists command : DebuggerCommand,
      handler_of name = Some command
      /\ forall (debugger : CLIDebugger) (dv : list DebugVector),
           (dv = [] \/ exists node next, dv = node :: next /\ type node <> DV_INT_TYPE) ->
           command debugger dv
           = (debugger, [Stdout (ERROR_MISSING_ARGS ++ nl)])
           /\ filter is_service_call (snd (command debugger dv)) = [].
Proof.
  intros name Hin.
  assert (Hguard :
    forall command : DebuggerCommand,
      (forall debugger dv, no_int_head dv = true ->
         command debugger dv = (debugger, [Stdout (ERROR_MISSING_ARGS ++ nl)])) ->
      forall debugger dv,
        (dv = [] \/ exists node next, dv = node :: next /\ type node <> DV_INT_TYPE) ->
        command debugger dv = (debugger, [Stdout (ERROR_MISSING_ARGS ++ nl)])
        /\ filter is_service_call (snd (command debugger dv)) = []).
  { intros command Hc debugger dv Hdv. apply no_int_head_iff in Hdv.
    rewrite (Hc debugger dv Hdv). split; reflexivity. }
  unfold address_commands in Hin. cbn [In] in Hin.
  repeat (destruct Hin as [<- | Hin]); try contradiction;
    (eexists; split; [reflexivity|]; apply Hguard;
     intros debugger dv Hhead; unfold_address_handlers;
     rewrite Hhead; reflexivity).
Qed.

Lemma _printStatus_debugger debugger dv : fst (_printStatus debugger dv) = debugger.
Proof. unfold _printStatus. rewrite !fst_bind. reflexivity. Qed.

Lemma _printStatus_no_step debugger dv : steps_run (snd (_printStatus debugger dv)) = O.
Proof.
  unfold _printStatus, _printStatus_row, _printPSR, _printLine.
  destruct (Z.testbit (cpsr (cpu (d debugger))) 5); reflexivity.
Qed.

(** C8.  [_next], the handler of [next] and [n], makes one call of the
    external step, on the CPU, and then prints the status of the stepped
    machine.  The debugger it returns is the one it was given with the
    stepped CPU in place: the run state (PAUSED when the console calls
    it), the breakpoint engine and the history are as they were. *)
Theorem next_steps_once_and_reports :
  forall (debugger : CLIDebugger) (dv : list DebugVector),
    let stepped := set_cpu (ARMRun (cpu (d debugger))) debugger in
    handler_of "next" = Some _next
    /\ handler_of "n" = Some _next
    /\ _next debugger dv = (stepped, Run :: snd (_printStatus stepped []))
    /\ steps_run (snd (_next debugger dv)) = 1%nat
    /\ state (d (fst (_next debugger dv))) = state (d debugger)
    /\ engine (d (fst (_next debugger dv))) = engine (d debugger)
    /\ histate (fst (_next debugger dv)) = histate debugger
    /\ cpu (d (fst (_next debugger dv))) = ARMRun (cpu (d debugger)).
Proof.
  intros debugger dv stepped.
  assert (E : _next debugger dv = (stepped, Run :: snd (_printStatus stepped []))).
  { unfold _next. fold stepped. unfold emit, bind at 1.
    pose proof (_printStatus_debugger stepped []) as Hd.
    destruct (_printStatus stepped []) as [d' es]. simpl in Hd. subst d'.
    reflexivity. }
  rewrite E. cbn [fst snd steps_run].
  rewrite _printStatus_no_step.
  repeat split; reflexivity.
Qed.

(** C10.  [_print], the handler of [print] and [p], and [_printHex], the
    handler of [print/x] and [p/x], given the empty argument sequence,
    print one empty line and nothing else, and return the debugger
    unchanged. *)
Theorem print_without_arguments :
  forall debugger : CLIDebugger,
    handler_of "print" = Some _print
    /\ handler_of "p" = Some _print
    /\ handler_of "print/x" = Some _printHex
    /\ handler_of "p/x" = Some _printHex
    /\ _print debugger [] = (debugger, [Stdout nl])
    /\ _printHex debugger [] = (debugger, [Stdout nl])
    /\ stdout (snd (_print debugger [])) = nl
    /\ stdout (snd (_printHex debugger [])) = nl.
Proof.
  intro debugger. repeat split; reflexivity.
Qed.

(** No handler touches the history. *)
Lemma guarded_keeps_history (body : CLIDebugger -> list DebugVector -> IO CLIDebugger) :
  keeps_history body ->
  keeps_history (fun debugger dv =>
    if no_int_head dv then printf (ERROR_MISSING_ARGS ++ nl) ;; ret debugger
    else body debugger dv).
Proof.
  intros H debugger dv. destruct (no_int_head dv); [reflexivity|apply H].
Qed.

Lemma table_keeps_history :
  Forall (fun entry => keeps_history (snd entry)) _debuggerCommands.
Proof.
  assert (Hb : keeps_history _setBreakpoint)
    by (apply guarded_keeps_history; intros debugger dv; reflexivity).
  assert (Hc : keeps_history _clearBreakpoint)
    by (apply guarded_keeps_history; intros debugger dv; reflexivity).
  assert (Hw : keeps_history _setWatchpoint)
    by (apply guarded_keeps_history; intros debugger dv; reflexivity).
  assert (Hrb : keeps_history _readByte)
    by (apply guarded_keeps_history; intros debugger dv; reflexivity).
  assert (Hrh : keeps_history _readHalfword)
    by (apply guarded_keeps_history; intros debugger dv; reflexivity).
  assert (Hrw : keeps_history _readWord)
    by (apply guarded_keeps_history; intros debugger dv; reflexivity).
  assert (Hs : keeps_history _printStatus)
    by (intros debugger dv; rewrite _printStatus_debugger; reflexivity).
  assert (Hn : keeps_history _next).
  { intros debugger dv. unfold _next. rewrite fst_bind.
    rewrite _printStatus_debugger. reflexivity. }
  assert (Hp : keeps_history _print)
    by (intros debugger dv; unfold _print; rewrite !fst_bind; reflexivity).
  assert (Hx : keeps_history _printHex)
    by (intros debugger dv; unfold _printHex; rewrite !fst_bind; reflexivity).
  assert (Hd : keeps_history _disassemble).
  { intros debugger dv. unfold _disassemble.
    destruct (no_int_head dv); rewrite !fst_bind; reflexivity. }
  assert (Hco : keeps_history _continue) by (intros debugger dv; reflexivity).
  assert (Hq : keeps_history _quit) by (intros debugger dv; reflexivity).
  assert (Hbi : keeps_history _breakInto) by (intros debugger dv; reflexivity).
  unfold _debuggerCommands. repeat constructor; assumption.
Qed.

(** What [_parse] returns, and what it leaves of the history. *)
Lemma _parse_result debugger line count :
  let r := _parse debugger line count in
  (fst (fst r) = 0 \/ fst (fst r) = 1)
  /\ (fst (fst r) = 1 <->
      error_head (arguments_of line count) = false
      /\ verb_recognized _debuggerCommands line count = true)
  /\ histate (snd (fst r)) = histate debugger.
Proof.
  cbv zeta. unfold _parse.
  rewrite (_parse_with_stages _ debugger line count table_nul_free).
  unfold verb_recognized, names_verb. rewrite find_existsb.
  destruct (error_head (arguments_of line count)).
  - cbn. repeat split; auto; try discriminate; intros [? ?]; discriminate.
  - destruct (find _ _debuggerCommands) as [[name command]|] eqn:Ef.
    + rewrite bind_ret. cbn [fst snd].
      apply find_some in Ef. destruct Ef as [Hin _].
      pose proof table_keeps_history as Hk.
      rewrite Forall_forall in Hk. specialize (Hk _ Hin). cbn [snd] in Hk.
      repeat split; auto.
    + cbn. repeat split; auto; try discriminate; intros [? ?]; discriminate.
Qed.

(** C6.  A turn of the console loop on a line that is not blank dispatches
    the line, and appends it to the history exactly when the dispatch
    returned 1, that is when the arguments built without error and the
    verb was recognized (and so its handler was called); after a parse
    error or an unrecognized verb the history is as before.  A turn on a
    blank line dispatches the most recent entry of the history, with the
    count of its own entering, and leaves the history as it is; with an
    empty history it does nothing. *)
Theorem history_records_handled_lines :
  forall (debugger : CLIDebugger) (line : string),
    let count := size_t (strlen line - 1) in
    let r := _parse debugger line count in
    (fst (fst r) = 0 \/ fst (fst r) = 1)
    /\ (fst (fst r) = 1 <->
        error_head (arguments_of line count) = false
        /\ verb_recognized _debuggerCommands line count = true)
    /\ (Ascii.eqb (deref line) NEWLINE = false ->
        _commandLine_turn debugger line
        = (if fst (fst r) =? 1 then history_enter line (snd (fst r)) else snd (fst r),
           snd r)
        /\ histate (fst (_commandLine_turn debugger line))
           = if fst (fst r) =? 1
             then firstn HISTORY_SIZE (line :: histate debugger)
             else histate debugger)
    /\ (Ascii.eqb (deref line) NEWLINE = true ->
        match histate debugger with
        | str :: _ =>
            let replay := _parse debugger str (size_t (strlen str - 1)) in
            _commandLine_turn debugger line = (snd (fst replay), snd replay)
            /\ histate (fst (_commandLine_turn debugger line)) = histate debugger
        | [] => _commandLine_turn debugger line = (debugger, [])
        end).
Proof.
  intros debugger line count r.
  destruct (_parse_result debugger line count) as [H01 [H1 Hh]].
  fold r in H01, H1, Hh.
  split; [exact H01|]. split; [exact H1|]. split.
  - intro Hb. unfold _commandLine_turn. rewrite Hb. fold count. fold r.
    assert (E : bind r (fun r0 =>
                  if negb (fst r0 =? 0) then ret (history_enter line (snd r0))
                  else ret (snd r0))
                = (if fst (fst r) =? 1 then history_enter line (snd (fst r))
                   else snd (fst r), snd r)).
    { unfold bind. destruct r as [[z d'] es]. cbn [fst snd] in *.
      destruct H01 as [-> | ->]; cbn; rewrite app_nil_r; reflexivity. }
    rewrite E. split; [reflexivity|]. cbn [fst].
    destruct (fst (fst r) =? 1).
    + unfold history_enter. cbn [histate set_histate]. rewrite Hh. reflexivity.
    + exact Hh.
  - intro Hb. unfold _commandLine_turn. rewrite Hb.
    destruct (histate debugger) as [|str older] eqn:Eh; [reflexivity|].
    cbv zeta. rewrite bind_ret. split; [reflexivity|]. cbn [fst].
    destruct (_parse_result debugger str (size_t (strlen str - 1))) as [_ [_ Hr]].
    rewrite Hr. exact Eh.
Qed.

(** C9, amended.  A sequence [_DVParse] returns is all of one type: when
    every segment of the text evaluates, it has one INT node for each;
    when a segment fails, it is cut at the first such segment, with one
    node for each segment up to and including that one, the last being
    the fresh ERROR node (whose next pointer is null), and every node in
    front of it has ERROR type as well.  So an ERROR node anywhere puts
    ERROR at the head, and a head that is not ERROR heads a sequence of
    INT nodes only. *)
Theorem sequence_is_all_int_or_all_error :
  forall (str : string) (length : Z),
    let dv := _DVParse (Some str) length in
    let segs := segments str length in
    (existsb segment_fails segs = false ->
       Forall (is_type DV_INT_TYPE) dv /\ List.length dv = List.length segs)
    /\ (existsb segment_fails segs = true ->
       Forall (is_type DV_ERROR_TYPE) dv
       /\ List.length dv = S (List.length (leading_successes segs))
       /\ exists before, dv = (before ++ [ mkDV DV_ERROR_TYPE indeterminate ])%list)
    /\ (Exists (is_type DV_ERROR_TYPE) dv -> error_head dv = true)
    /\ (error_head dv = false -> Forall (is_type DV_INT_TYPE) dv).
Proof.
  intros str length dv segs.
  destruct (_DVParse_shape str length) as [Hok Herr].
  fold dv segs in Hok, Herr.
  split; [exact Hok|]. split; [exact Herr|].
  destruct (existsb segment_fails segs) eqn:E.
  - destruct (Herr eq_refl) as [Hall [Hlen _]].
    assert (He : error_head dv = true).
    { apply error_head_all_error; [exact Hall|].
      intro E0. rewrite E0 in Hlen. discriminate. }
    split; [intros _; exact He|]. rewrite He. discriminate.
  - destruct (Hok eq_refl) as [Hall _]. split; [|intros _; exact Hall].
    intro Hex. exfalso. apply Exists_exists in Hex as [node [Hin Hty]].
    rewrite Forall_forall in Hall. specialize (Hall node Hin).
    unfold is_type in *. congruence.
Qed.

(** A scan in which every remaining entry compares smaller stops on the
    closing entry of the table. *)
Lemma _tabComplete_scan_exhausts buffer len :
  forall (entries : list (string * DebuggerCommand)) (cmd : nat),
  forallb (fun name => strncasecmp name buffer len <? 0) (map fst entries) = true ->
  _tabComplete_scan entries cmd buffer len
  = ScanStop (cmd + List.length entries) None.
Proof.
  induction entries as [|[name command] entries IH]; intros cmd H.
  - cbn. rewrite Nat.add_0_r. reflexivity.
  - cbn [map fst forallb] in H. apply andb_true_iff in H as [Hname H].
    apply Z.ltb_lt in Hname. cbn [_tabComplete_scan List.length].
    destruct (Z.gtb_spec (strncasecmp name buffer len) 0); [lia|].
    destruct (Z.eqb_spec (strncasecmp name buffer len) 0); [lia|].
    rewrite IH by exact H. f_equal. lia.
Qed.

(** Once on the closing entry, the outer loop stays there. *)
Lemma _tabComplete_loop_stays buffer :
  forall (steps : nat) (len : Z),
  _tabComplete_loop steps 25 len None buffer
  = Some (25%nat, len + Z.of_nat steps, None).
Proof.
  induction steps as [|steps IH]; intro len.
  - cbn. rewrite Z.add_0_r. reflexivity.
  - cbn [_tabComplete_loop]. change (skipn 25 _debuggerCommands) with (@nil (string * DebuggerCommand)).
    cbn [_tabComplete_scan]. rewrite IH. f_equal. f_equal. f_equal. lia.
Qed.

(** The defect at large: whenever the first typed character sorts behind
    the first character of every command name, completion leaves defined
    behaviour. *)
Lemma completion_behind_the_last_command buffer cursor :
  forallb (fun name => strncasecmp name buffer 1 <? 0) (map fst _debuggerCommands) = true ->
  _tabComplete buffer (S cursor) = Undefined.
Proof.
  intro H. unfold _tabComplete.
  change (_tabComplete_loop (S (S cursor)) 0 0 None buffer)
    with (match _tabComplete_scan _debuggerCommands 0 buffer 1 with
          | ScanReturn => None
          | ScanStop cmd' name' => _tabComplete_loop cursor cmd' (0 + 1 + 1) name' buffer
          end).
  rewrite (_tabComplete_scan_exhausts buffer 1 _debuggerCommands 0 H).
  change (0 + List.length _debuggerCommands)%nat with 25%nat.
  rewrite _tabComplete_loop_stays. reflexivity.
Qed.

(** C3.  On the typed text "z" the completion scan runs off the end of
    the command table: no entry shares the prefix, none compares greater
    either, and instead of reporting no match the function reads behind
    the closing entry of the table with a null name in hand. *)
Theorem completion_runs_off_the_table :
  _tabComplete_loop 2 0 0 None "z" = Some (25%nat, 2, None)
  /\ command_name (25 + 1) = None
  /\ candidates "z" = []
  /\ _tabComplete "z" 1 = Undefined.
Proof. repeat split; reflexivity. Qed.

End Handlers.

(* ------------------------------------------------------------------ *)
(** ** The console at work *)

Section Runs.

Import Machine.

Local Open Scope string_scope.
Local Open Scope Z_scope.

Example print_sums :
  stdout (snd (run paused "print 1 2+3*4 0x10")) = " 1 14 16" ++ nl.
Proof. reflexivity. Qed.

Example print_hex_wraps :
  stdout (snd (run paused "p/x 255 1-2")) = " 0x000000FF 0xFFFFFFFF" ++ nl.
Proof. reflexivity. Qed.

Example verb_case_is_ignored :
  run paused "PRINT 7" = ((1, paused), [Stdout " 7"; Stdout nl]).
Proof. reflexivity. Qed.

Example prefix_is_no_verb :
  run paused "pr" = ((0, paused), [Stdout ("Command not found" ++ nl)]).
Proof. reflexivity. Qed.

Example completes_break : _tabComplete "br" 2 = CC_REDISPLAY "eak ".
Proof. reflexivity. Qed.

Example ambiguous_p : _tabComplete "p" 1 = CC_ERROR /\ List.length (candidates "p") = 4%nat.
Proof. split; reflexivity. Qed.

Example no_command_starts_with_a : _tabComplete "a" 1 = CC_ERROR /\ candidates "a" = [].
Proof. split; reflexivity. Qed.

(** The line of the specification's example: the second argument divides
    by zero. *)
Lemma failing_segment_is_parse_error_witness :
  existsb segment_fails (argument_segments (entered "print 1 2/0 3") 13) = true
  /\ _parse paused (entered "print 1 2/0 3") 13
     = ((0, paused), [Stdout ("Parse error" ++ nl)]).
Proof.
  split; [reflexivity|].
  apply (failing_segment_is_parse_error _debuggerCommands paused
           (entered "print 1 2/0 3") 13).
  reflexivity.
Defined.

Lemma lookup_is_exact_witness :
  verb_recognized _debuggerCommands (entered "pr") 2 = false
  /\ error_head (arguments_of (entered "pr") 2) = false
  /\ _parse paused (entered "pr") 2
     = ((0, paused), [Stdout ("Command not found" ++ nl)]).
Proof.
  split; [reflexivity|]. split; [reflexivity|].
  apply (proj1 (proj2 (proj2 (lookup_is_exact paused (entered "pr") 2))));
    reflexivity.
Defined.

(** An unknown verb in front of an argument that fails: the line is
    reported as a parse error, not as an unknown command. *)
Lemma unknown_verb_with_failing_argument :
  ~ unmatched_verb_always_not_found.
Proof.
  intro H.
  specialize (H collaborators paused (entered "foo 2/0") 7 eq_refl).
  discriminate H.
Qed.

Lemma evaluate_is_uint32_arithmetic_witness :
  let tree :=
    TOKEN_OPERATOR_TYPE OP_SUBTRACT
      (TOKEN_OPERATOR_TYPE OP_MULTIPLY
         (TOKEN_OPERATOR_TYPE OP_ADD (TOKEN_UINT_TYPE 4294967295) (TOKEN_UINT_TYPE 2))
         (TOKEN_UINT_TYPE 3))
      (TOKEN_OPERATOR_TYPE OP_DIVIDE (TOKEN_UINT_TYPE 9) (TOKEN_UINT_TYPE 2)) in
  well_formed tree = true
  /\ divides_by_zero tree = false
  /\ exists v,
       uint32_arithmetic tree = Some v
       /\ _evaluateParseTree tree (mkDV DV_INT_TYPE 0) = (v, mkDV DV_INT_TYPE 0)
       /\ 0 <= v <= UINT32_MAX
       /\ type (snd (_evaluateParseTree tree (mkDV DV_INT_TYPE 0))) = DV_INT_TYPE.
Proof.
  cbv zeta. split; [reflexivity|]. split; [reflexivity|].
  apply evaluate_is_uint32_arithmetic; reflexivity.
Defined.

Lemma division_by_zero_fails_everywhere_witness :
  let tree :=
    TOKEN_OPERATOR_TYPE OP_ASSIGN
      (TOKEN_OPERATOR_TYPE OP_DIVIDE (TOKEN_UINT_TYPE 2)
         (TOKEN_OPERATOR_TYPE OP_SUBTRACT (TOKEN_UINT_TYPE 3) (TOKEN_UINT_TYPE 3)))
      (TOKEN_UINT_TYPE 5) in
  divides_by_zero tree = true
  /\ type (snd (_evaluateParseTree tree (mkDV DV_INT_TYPE 0))) = DV_ERROR_TYPE
  /\ type (snd (_evaluateParseTree
                  (TOKEN_OPERATOR_TYPE OP_MULTIPLY (TOKEN_UINT_TYPE 0)
                     (TOKEN_IDENTIFIER_TYPE "pc"))
                  (mkDV DV_INT_TYPE 0))) = DV_ERROR_TYPE.
Proof.
  cbv zeta. split; [reflexivity|]. split.
  - apply (proj1 division_by_zero_fails_everywhere). reflexivity.
  - apply (proj2 division_by_zero_fails_everywhere). right. reflexivity.
Defined.

(** [print 1] is recorded and a blank line repeats it; [foo] is not
    recorded. *)
Lemma history_records_handled_lines_witness :
  let recorded := history_enter (entered "print 1") paused in
  Ascii.eqb (deref (entered "print 1")) NEWLINE = false
  /\ _commandLine_turn paused (entered "print 1")
     = (recorded, [Stdout " 1"; Stdout nl])
  /\ Ascii.eqb (deref (entered "foo")) NEWLINE = false
  /\ histate (fst (_commandLine_turn paused (entered "foo"))) = []
  /\ Ascii.eqb (deref (entered EmptyString)) NEWLINE = true
  /\ _commandLine_turn recorded (entered EmptyString)
     = (recorded, [Stdout " 1"; Stdout nl])
  /\ _commandLine_turn paused (entered EmptyString) = (paused, []).
Proof.
  cbv zeta.
  destruct (history_records_handled_lines paused (entered "print 1"))
    as [_ [_ [Hprint _]]].
  destruct (history_records_handled_lines paused (entered "foo"))
    as [_ [_ [Hfoo _]]].
  destruct (history_records_handled_lines
              (history_enter (entered "print 1") paused) (entered EmptyString))
    as [_ [_ [_ Hrepeat]]].
  destruct (history_records_handled_lines paused (entered EmptyString))
    as [_ [_ [_ Hnothing]]].
  split; [reflexivity|]. split.
  { rewrite (proj1 (Hprint eq_refl)). reflexivity. }
  split; [reflexivity|]. split.
  { rewrite (proj2 (Hfoo eq_refl)). reflexivity. }
  split; [reflexivity|]. split.
  { rewrite (proj1 (Hrepeat eq_refl)). reflexivity. }
  exact (Hnothing eq_refl).
Defined.

Lemma address_commands_need_an_address_witness :
  In "rb" address_commands
  /\ exists command,
       handler_of "rb" = Some command
       /\ command paused [] = (paused, [Stdout (ERROR_MISSING_ARGS ++ nl)])
       /\ command paused [mkDV DV_ERROR_TYPE 4]
          = (paused, [Stdout (ERROR_MISSING_ARGS ++ nl)]).
Proof.
  assert (Hin : In "rb" address_commands) by (cbn; tauto).
  split; [exact Hin|].
  destruct (address_commands_need_an_address "rb" Hin) as [command [Hc Hm]].
  exists command. split; [exact Hc|]. split.
  - apply Hm. left. reflexivity.
  - apply Hm. right. exists (mkDV DV_ERROR_TYPE 4), []. split; [reflexivity|discriminate].
Defined.

Lemma sequence_is_all_int_or_all_error_witness :
  existsb segment_fails (segments "1 2/0 3" 7) = true
  /\ Forall (is_type DV_ERROR_TYPE) (_DVParse (Some "1 2/0 3") 7)
  /\ List.length (_DVParse (Some "1 2/0 3") 7) = 2%nat
  /\ existsb segment_fails (segments "1 2 3" 5) = false
  /\ Forall (is_type DV_INT_TYPE) (_DVParse (Some "1 2 3") 5)
  /\ List.length (_DVParse (Some "1 2 3") 5) = 3%nat.
Proof.
  assert (Hfails : existsb segment_fails (segments "1 2/0 3" 7) = true)
    by reflexivity.
  assert (Hworks : existsb segment_fails (segments "1 2 3" 5) = false)
    by reflexivity.
  split; [exact Hfails|].
  destruct (proj1 (proj2 (sequence_is_all_int_or_all_error "1 2/0 3" 7)) Hfails)
    as [Hall [Hlen _]].
  split; [exact Hall|]. split; [exact Hlen|].
  split; [exact Hworks|].
  exact (proj1 (sequence_is_all_int_or_all_error "1 2 3" 5) Hworks).
Defined.

(** The head of the sequence built for ["1 2/0"] has ERROR type and a
    next node. *)
Lemma error_head_with_a_next_node :
  ~ error_nodes_are_last.
Proof.
  intro H.
  specialize (H collaborators "1 2/0" 5 []
                (mkDV DV_ERROR_TYPE 1) [mkDV DV_ERROR_TYPE 0] eq_refl eq_refl).
  discriminate H.
Qed.

End Runs.

(* ------------------------------------------------------------------ *)
(** * Further properties *)

(** ** The evaluator *)

Section EvaluatorAtLarge.

(** A tree without unknown leaves and without a zero divisor leaves the
    vector as it is. *)
Lemma evaluate_clean tree :
  has_unknown_leaf tree = false -> divides_by_zero tree = false ->
  forall dv, snd (_evaluateParseTree tree dv) = dv.
Proof.
  induction tree as [u | op l IHl r IHr | s | ]; simpl; intros Hu Hz dv;
    try discriminate; try reflexivity.
  apply orb_false_iff in Hu as [Hul Hur].
  apply orb_false_iff in Hz as [Hz Hzr]. apply orb_false_iff in Hz as [Hop Hzl].
  specialize (IHl Hul Hzl dv).
  destruct (_evaluateParseTree l dv) as [a d1]. simpl in IHl. subst d1.
  specialize (IHr Hur Hzr dv).
  pose proof (evaluate_value_independent r dv (mkDV DV_INT_TYPE 0)) as Hv.
  destruct (_evaluateParseTree r dv) as [b d2]. simpl in IHr, Hv. subst d2.
  destruct op; simpl; try reflexivity.
  rewrite <- Hv in Hop. rewrite Hop. reflexivity.
Qed.

Lemma unknown_leaf_sets_error tree :
  has_unknown_leaf tree = true ->
  forall dv, type (snd (_evaluateParseTree tree dv)) = DV_ERROR_TYPE.
Proof.
  induction tree as [u | op l IHl r IHr | s | ]; simpl; intros Hu dv;
    try discriminate; try reflexivity.
  apply orb_true_iff in Hu as [Hu | Hu].
  - specialize (IHl Hu dv). destruct (_evaluateParseTree l dv) as [a d1].
    simpl in IHl. pose proof (evaluate_sticky r d1 IHl) as Hs.
    destruct (_evaluateParseTree r d1) as [b d2].
    apply performOperation_sticky. exact Hs.
  - destruct (_evaluateParseTree l dv) as [a d1].
    specialize (IHr Hu d1). destruct (_evaluateParseTree r d1) as [b d2].
    apply performOperation_sticky. exact IHr.
Qed.

Lemma zero_divisor_sets_error tree :
  divides_by_zero tree = true ->
  forall dv, type (snd (_evaluateParseTree tree dv)) = DV_ERROR_TYPE.
Proof.
  induction tree as [u | op l IHl r IHr | s | ]; simpl; intros H dv;
    try discriminate.
  apply orb_true_iff in H as [H | Hr].
  - apply orb_true_iff in H as [Hop | Hl].
    + destruct op; try discriminate. apply Z.eqb_eq in Hop.
      destruct (_evaluateParseTree l dv) as [a d1].
      rewrite (evaluate_value_independent r _ d1) in Hop.
      destruct (_evaluateParseTree r d1) as [b d2]. simpl in Hop. subst b.
      reflexivity.
    + specialize (IHl Hl dv). destruct (_evaluateParseTree l dv) as [a d1].
      simpl in IHl. pose proof (evaluate_sticky r d1 IHl) as Hs.
      destruct (_evaluateParseTree r d1) as [b d2].
      apply performOperation_sticky. exact Hs.
  - destruct (_evaluateParseTree l dv) as [a d1].
    specialize (IHr Hr d1). destruct (_evaluateParseTree r d1) as [b d2].
    apply performOperation_sticky. exact IHr.
Qed.

(** X1.  Starting from a vector that is not ERROR, [_evaluateParseTree]
    ends in ERROR exactly when the tree has an identifier or an error
    token among its leaves or has a division node whose right child
    evaluates to zero; in every other case the vector comes back
    unchanged. *)
Theorem evaluation_fails_exactly_when :
  forall (tree : ParseTree) (dv : DebugVector),
    type dv <> DV_ERROR_TYPE ->
    (type (snd (_evaluateParseTree tree dv)) = DV_ERROR_TYPE
     <-> has_unknown_leaf tree = true \/ divides_by_zero tree = true)
    /\ (type (snd (_evaluateParseTree tree dv)) <> DV_ERROR_TYPE ->
        snd (_evaluateParseTree tree dv) = dv).
Proof.
  intros tree dv Hdv.
  destruct (has_unknown_leaf tree) eqn:Hu.
  - pose proof (unknown_leaf_sets_error tree Hu dv) as He.
    split; [split; auto | intro H; contradiction].
  - destruct (divides_by_zero tree) eqn:Hz.
    + pose proof (zero_divisor_sets_error tree Hz dv) as He.
      split; [split; auto | intro H; contradiction].
    + pose proof (evaluate_clean tree Hu Hz dv) as Hc. rewrite Hc.
      split; [|reflexivity]. split.
      * intro H. contradiction.
      * intros [H | H]; discriminate.
Qed.

(** X2.  When the literals of a tree are unsigned 32-bit numbers, the
    value [_evaluateParseTree] returns is one too, whatever the operators
    and also when the evaluation fails. *)
Theorem evaluation_stays_unsigned_32_bit :
  forall (tree : ParseTree) (dv : DebugVector),
    literals_fit tree = true ->
    0 <= fst (_evaluateParseTree tree dv) <= UINT32_MAX.
Proof.
  induction tree as [u | op l IHl r IHr | s | ]; simpl; intros dv Hl;
    try (unfold UINT32_MAX; lia).
  - apply is_uint32_range. exact Hl.
  - apply andb_true_iff in Hl as [Hll Hlr].
    specialize (IHl dv Hll). destruct (_evaluateParseTree l dv) as [a d1].
    specialize (IHr d1 Hlr). destruct (_evaluateParseTree r d1) as [b d2].
    simpl in IHl, IHr.
    destruct op; simpl.
    + exact IHr.
    + destruct (uint32_wrapping_add a b IHl IHr) as [E R]. rewrite E. exact R.
    + destruct (uint32_wrapping_sub a b IHl IHr) as [E R]. rewrite E. exact R.
    + destruct (uint32_wrapping_mul a b) as [E R]. rewrite E. exact R.
    + destruct (Z.eqb_spec b 0); simpl; [unfold UINT32_MAX; lia|].
      apply uint32_quotient; lia.
Qed.

(** X3.  On a well-formed tree without division the evaluator computes
    the value of the expression over the integers, reduced modulo 2^32
    once at the end: wrapping an intermediate result loses nothing. *)
Theorem evaluation_is_integer_value_mod_2_32 :
  forall (tree : ParseTree) (dv : DebugVector),
    well_formed tree = true ->
    division_free tree = true ->
    _evaluateParseTree tree dv = (integer_value tree mod 2 ^ 32, dv).
Proof.
  induction tree as [u | op l IHl r IHr | s | ]; simpl; intros dv Hw Hd;
    try discriminate.
  - apply is_uint32_range in Hw. unfold UINT32_MAX in Hw.
    rewrite Z.mod_small by lia. reflexivity.
  - apply andb_true_iff in Hw as [Hwl Hwr].
    assert (Hd' : division_free l = true /\ division_free r = true).
    { destruct op; try discriminate; apply andb_true_iff in Hd; exact Hd. }
    destruct Hd' as [Hdl Hdr].
    rewrite (IHl dv Hwl Hdl), (IHr dv Hwr Hdr).
    destruct op; try discriminate; simpl; unfold uint32.
    + reflexivity.
    + rewrite <- Zplus_mod. reflexivity.
    + rewrite <- Zminus_mod. reflexivity.
    + rewrite <- Zmult_mod. reflexivity.
Qed.

End EvaluatorAtLarge.

(** ** The argument list builder *)

Section BuilderAtLarge.
Context {C : Collaborators}.

Local Open Scope string_scope.
Local Open Scope Z_scope.

Lemma int32_range v : - 2 ^ 31 <= int32 v < 2 ^ 31.
Proof.
  unfold int32. pose proof (Z.mod_pos_bound (v + 2 ^ 31) (2 ^ 32)). lia.
Qed.

(** Stored as [int32_t] and read back as [uint32_t], a value is what it
    was modulo 2^32. *)
Lemma uint32_int32 v : uint32 (int32 v) = uint32 v.
Proof.
  unfold uint32, int32. rewrite Zminus_mod_idemp_l. f_equal. lia.
Qed.

(** [dvTemp] behind lines 332-336, for any tree and any start. *)
Lemma dvTemp_of_tree (tree : ParseTree) (dv0 : DebugVector) :
  let dvTemp :=
    match tree with
    | TOKEN_ERROR_TYPE => set_type DV_ERROR_TYPE dv0
    | _ =>
        let (value, dvTemp) := _evaluateParseTree tree dv0 in
        set_intValue (int32 value) dvTemp
    end in
  type dvTemp = type (snd (_evaluateParseTree tree dv0))
  /\ (type dvTemp <> DV_ERROR_TYPE ->
      dvTemp = set_intValue (int32 (fst (_evaluateParseTree tree dv0))) dv0).
Proof.
  pose proof (evaluate_frame tree dv0) as Hf.
  destruct tree as [u | op l r | s | ]; cbv zeta match.
  - split; reflexivity.
  - destruct (_evaluateParseTree (TOKEN_OPERATOR_TYPE op l r) dv0) as [v d1].
    cbn [fst snd] in *. split; [reflexivity|].
    destruct Hf as [-> | ->]; [reflexivity|]. intro H. exfalso. apply H. reflexivity.
  - split; [reflexivity|]. intro H. exfalso. apply H. reflexivity.
  - split; [reflexivity|]. intro H. exfalso. apply H. reflexivity.
Qed.

(** The node of a segment that evaluates. *)
Lemma _DVParse_segment_value str length :
  segment_fails (str, length) = false ->
  fst (_DVParse_segment str length)
  = mkDV DV_INT_TYPE (int32 (segment_value (str, length))).
Proof.
  unfold segment_fails, segment_value, _DVParse_segment. cbn [fst snd].
  destruct (lexExpression str length) as [lv adjusted]. cbn [fst snd].
  set (tree := parseLexedExpression lv).
  intro H.
  match type of H with
  | DVType_eqb ?t _ = false =>
      assert (Hne : t <> DV_ERROR_TYPE)
        by (intro E; rewrite E in H; discriminate)
  end.
  clear H. revert Hne.
  destruct (adjusted >? length).
  - destruct (dvTemp_of_tree tree (set_type DV_ERROR_TYPE (mkDV DV_INT_TYPE 0)))
      as [Ht _].
    cbv zeta in Ht. intro Hne. exfalso. apply Hne.
    etransitivity; [exact Ht|]. apply evaluate_sticky. reflexivity.
  - destruct (dvTemp_of_tree tree (mkDV DV_INT_TYPE 0)) as [_ Hv].
    cbv zeta in Hv. intro Hne. exact (Hv Hne).
Qed.

(** A text whose segments all evaluate gives their nodes, in order. *)
Lemma _DVParse_rec_values : forall fuel str length,
  existsb segment_fails (segments_rec fuel str length) = false ->
  _DVParse_rec fuel (Some str) length
  = map (fun seg => mkDV DV_INT_TYPE (int32 (segment_value seg)))
        (segments_rec fuel str length).
Proof.
  induction fuel as [|fuel IH]; intros str length; [reflexivity|].
  rewrite _DVParse_rec_S, segments_rec_S.
  destruct (length <? 1); [reflexivity|]. cbv zeta.
  pose proof (_DVParse_segment_adjusted str length) as Ha.
  pose proof (_DVParse_segment_value str length) as Hv.
  assert (Hsf : segment_fails (str, length)
                = DVType_eqb (type (fst (_DVParse_segment str length))) DV_ERROR_TYPE)
    by reflexivity.
  cbn [existsb map].
  destruct (_DVParse_segment str length) as [dvTemp adjusted].
  cbn [fst snd] in Ha, Hv, Hsf. subst adjusted. rewrite Hsf.
  destruct (DVType_eqb (type dvTemp) DV_ERROR_TYPE) eqn:Ee; cbn [orb];
    [discriminate|].
  rewrite Hsf in Hv. specialize (Hv eq_refl). subst dvTemp.
  destruct (Ascii.eqb (deref (advance _ str)) SPACE).
  - intro Hs. rewrite (IH _ _ Hs).
    destruct (segments_rec fuel _ _) as [|seg segs]; reflexivity.
  - reflexivity.
Qed.

Lemma no_failure_of_clear_head str length :
  error_head (_DVParse (Some str) length) = false ->
  existsb segment_fails (segments str length) = false.
Proof.
  intro H. destruct (existsb segment_fails (segments str length)) eqn:E;
    [|reflexivity].
  destruct (_DVParse_shape str length) as [_ Herr].
  destruct (Herr E) as [Hall [Hlen _]].
  rewrite error_head_all_error in H; [discriminate|exact Hall|].
  intro E0. rewrite E0 in Hlen. discriminate.
Qed.

(** X4.  When every segment of a text evaluates, [_DVParse] returns one
    node for each segment, in the order of the text; the node has INT
    type and holds the value the evaluator returned for the segment,
    converted to [int32_t], so read back as unsigned it is that value
    modulo 2^32. *)
Theorem sequence_holds_the_segment_values :
  forall (str : string) (length : Z),
    existsb segment_fails (segments str length) = false ->
    _DVParse (Some str) length
    = map (fun seg => mkDV DV_INT_TYPE (int32 (segment_value seg)))
          (segments str length)
    /\ Forall (fun node => - 2 ^ 31 <= intValue node < 2 ^ 31)
         (_DVParse (Some str) length)
    /\ map (fun node => uint32 (intValue node)) (_DVParse (Some str) length)
       = map (fun seg => uint32 (segment_value seg)) (segments str length).
Proof.
  intros str length H.
  assert (E : _DVParse (Some str) length
              = map (fun seg => mkDV DV_INT_TYPE (int32 (segment_value seg)))
                    (segments str length))
    by (apply _DVParse_rec_values; exact H).
  rewrite E. split; [reflexivity|]. split.
  - apply Forall_forall. intros node Hin. apply in_map_iff in Hin as [seg [<- _]].
    apply int32_range.
  - rewrite map_map. apply map_ext. intro seg. apply uint32_int32.
Qed.

Lemma fmt_u_int32 v : fmt_u (int32 v) = fmt_u v.
Proof. unfold fmt_u. rewrite uint32_int32. reflexivity. Qed.

Lemma fmt_X_int32 width v : fmt_X width (int32 v) = fmt_X width v.
Proof. unfold fmt_X. rewrite uint32_int32. reflexivity. Qed.

Lemma _print_loop_events (values : list Z) :
  _print_loop (map (fun v => mkDV DV_INT_TYPE (int32 v)) values)
  = (tt, map (fun v => Stdout (" " ++ fmt_u v)) values).
Proof.
  induction values as [|v values IH]; [reflexivity|].
  cbn [map _print_loop intValue]. rewrite IH, fmt_u_int32. reflexivity.
Qed.

Lemma _printHex_loop_events (values : list Z) :
  _printHex_loop (map (fun v => mkDV DV_INT_TYPE (int32 v)) values)
  = (tt, map (fun v => Stdout (" 0x" ++ fmt_X 8 v)) values).
Proof.
  induction values as [|v values IH]; [reflexivity|].
  cbn [map _printHex_loop intValue]. rewrite IH, fmt_X_int32. reflexivity.
Qed.

(** X5.  On the sequence built from a text whose segments all evaluate,
    [_print] writes the values of the segments, in order, each as an
    unsigned decimal behind a space, and then a newline; [_printHex]
    writes them as eight hexadecimal digits behind [ 0x].  The detour of
    a value through the signed [intValue] field does not show: a value
    of 2^31 or more is printed as it was evaluated. *)
Theorem print_writes_the_segment_values :
  forall (debugger : CLIDebugger) (str : string) (length : Z),
    existsb segment_fails (segments str length) = false ->
    _print debugger (_DVParse (Some str) length)
    = (debugger,
       (map (fun seg => Stdout (" " ++ fmt_u (segment_value seg)))
            (segments str length) ++ [Stdout nl])%list)
    /\ _printHex debugger (_DVParse (Some str) length)
       = (debugger,
          (map (fun seg => Stdout (" 0x" ++ fmt_X 8 (segment_value seg)))
               (segments str length) ++ [Stdout nl])%list).
Proof.
  intros debugger str length H.
  assert (E : _DVParse (Some str) length
              = map (fun v => mkDV DV_INT_TYPE (int32 v))
                    (map segment_value (segments str length))).
  { rewrite map_map. apply _DVParse_rec_values. exact H. }
  rewrite E. unfold _print, _printHex.
  rewrite _print_loop_events, _printHex_loop_events, !map_map.
  split; reflexivity.
Qed.

End BuilderAtLarge.

(** ** The dispatcher and the command table *)

Section DispatcherAtLarge.
Context {C : Collaborators}.

Local Open Scope string_scope.
Local Open Scope Z_scope.

Lemma same_name_trans a : forall b v,
  same_name a v = true -> same_name b v = true -> same_name a b = true.
Proof.
  induction a as [|x a IH]; intros [|y b] [|z v]; simpl; try discriminate; auto.
  intros Ha Hb.
  apply andb_true_iff in Ha as [Hx Ha]. apply andb_true_iff in Hb as [Hy Hb].
  apply Ascii.eqb_eq in Hx. apply Ascii.eqb_eq in Hy.
  rewrite Hx, Hy, Ascii.eqb_refl. simpl. exact (IH b v Ha Hb).
Qed.

Lemma handler_in_name (commands : list (string * DebuggerCommand)) name command :
  handler_in commands name = Some command -> In name (map fst commands).
Proof.
  induction commands as [|[n c] commands IH]; simpl; [discriminate|].
  destruct (String.eqb n name) eqn:E.
  - intros _. left. apply String.eqb_eq. exact E.
  - intro H. right. apply IH. exact H.
Qed.

(** In a table without two names equal up to case, the entry the lookup
    finds for a verb is the entry bound to the name the verb spells. *)
Lemma find_bound_handler (commands : list (string * DebuggerCommand)) :
  forall name command line cmdLength,
  distinct_names (map fst commands) = true ->
  handler_in commands name = Some command ->
  entry_matches line cmdLength name = true ->
  find (fun entry => entry_matches line cmdLength (fst entry)) commands
  = Some (name, command).
Proof.
  induction commands as [|[n c] commands IH]; intros name command line len Hd Hh Hm;
    [discriminate|].
  cbn [map fst distinct_names] in Hd. apply andb_true_iff in Hd as [Hn Hd].
  cbn [handler_in] in Hh. cbn [find fst].
  destruct (String.eqb n name) eqn:E.
  - apply String.eqb_eq in E. subst n. injection Hh as <-. rewrite Hm. reflexivity.
  - destruct (entry_matches line len n) eqn:Emn.
    + exfalso. pose proof (handler_in_name _ _ _ Hh) as Hin.
      rewrite forallb_forall in Hn. specialize (Hn name Hin).
      unfold entry_matches in Hm, Emn.
      apply andb_true_iff in Hm as [_ Hm]. apply andb_true_iff in Emn as [_ Emn].
      rewrite (same_name_trans n name _ Emn Hm) in Hn. discriminate.
    + apply IH; assumption.
Qed.

Lemma table_distinct_names : distinct_names (map fst _debuggerCommands) = true.
Proof. reflexivity. Qed.

(** X6.  When the verb of a line spells, in any case of its letters, a
    name of the command table and the arguments build without error,
    [_parse] calls the handler bound to that very name, on the debugger
    and the built arguments, and returns 1 with the debugger the handler
    returns: no two entries of the table are equal up to case, so the
    first match is the only one. *)
Theorem dispatch_calls_the_bound_handler :
  forall (debugger : CLIDebugger) (line : string) (count : Z)
         (name : string) (command : DebuggerCommand),
    handler_of name = Some command ->
    names_verb line count name = true ->
    error_head (arguments_of line count) = false ->
    _parse debugger line count
    = ((1, fst (command debugger (arguments_of line count))),
       snd (command debugger (arguments_of line count))).
Proof.
  intros debugger line count name command Hh Hn He.
  unfold _parse. rewrite (_parse_with_stages _ debugger line count table_nul_free).
  rewrite He. unfold names_verb in *.
  rewrite (find_bound_handler _ name command line _ table_distinct_names Hh Hn).
  apply bind_ret.
Qed.

End DispatcherAtLarge.

Section TableAtLarge.
Context {C : Collaborators}.

Local Open Scope string_scope.
Local Open Scope Z_scope.

(** The debugger each handler returns. *)
Lemma _print_debugger debugger dv : fst (_print debugger dv) = debugger.
Proof. unfold _print. rewrite !fst_bind. reflexivity. Qed.

Lemma _printHex_debugger debugger dv : fst (_printHex debugger dv) = debugger.
Proof. unfold _printHex. rewrite !fst_bind. reflexivity. Qed.

Lemma _disassemble_debugger debugger dv : fst (_disassemble debugger dv) = debugger.
Proof.
  unfold _disassemble. destruct (no_int_head dv); rewrite !fst_bind; reflexivity.
Qed.

Lemma _breakInto_debugger debugger dv : fst (_breakInto debugger dv) = debugger.
Proof. reflexivity. Qed.

Lemma _readByte_debugger debugger dv : fst (_readByte debugger dv) = debugger.
Proof. unfold _readByte. destruct (no_int_head dv); reflexivity. Qed.

Lemma _readHalfword_debugger debugger dv : fst (_readHalfword debugger dv) = debugger.
Proof. unfold _readHalfword. destruct (no_int_head dv); reflexivity. Qed.

Lemma _readWord_debugger debugger dv : fst (_readWord debugger dv) = debugger.
Proof. unfold _readWord. destruct (no_int_head dv); reflexivity. Qed.

Lemma _next_debugger debugger dv :
  fst (_next debugger dv) = set_cpu (ARMRun (cpu (d debugger))) debugger.
Proof. unfold _next. rewrite fst_bind, _printStatus_debugger. reflexivity. Qed.

Lemma _continue_debugger debugger dv :
  fst (_continue debugger dv) = set_state DEBUGGER_RUNNING debugger.
Proof. reflexivity. Qed.

Lemma _quit_debugger debugger dv :
  fst (_quit debugger dv) = set_state DEBUGGER_SHUTDOWN debugger.
Proof. reflexivity. Qed.

Lemma _setBreakpoint_debugger debugger dv :
  fst (_setBreakpoint debugger dv)
  = if no_int_head dv then debugger
    else set_engine (ARMDebuggerSetBreakpoint (engine (d debugger))
                       (uint32 (intValue (hd (mkDV DV_INT_TYPE 0) dv)))) debugger.
Proof. unfold _setBreakpoint. destruct (no_int_head dv); reflexivity. Qed.

Lemma _clearBreakpoint_debugger debugger dv :
  fst (_clearBreakpoint debugger dv)
  = if no_int_head dv then debugger
    else set_engine (ARMDebuggerClearBreakpoint (engine (d debugger))
                       (uint32 (intValue (hd (mkDV DV_INT_TYPE 0) dv)))) debugger.
Proof. unfold _clearBreakpoint. destruct (no_int_head dv); reflexivity. Qed.

Lemma _setWatchpoint_debugger debugger dv :
  fst (_setWatchpoint debugger dv)
  = if no_int_head dv then debugger
    else set_engine (ARMDebuggerSetWatchpoint (engine (d debugger))
                       (uint32 (intValue (hd (mkDV DV_INT_TYPE 0) dv)))) debugger.
Proof. unfold _setWatchpoint. destruct (no_int_head dv); reflexivity. Qed.

Create Rewrite HintDb returned_debugger.
#[local] Hint Rewrite _printStatus_debugger _print_debugger _printHex_debugger
  _disassemble_debugger _breakInto_debugger _readByte_debugger
  _readHalfword_debugger _readWord_debugger _next_debugger _continue_debugger
  _quit_debugger _setBreakpoint_debugger _clearBreakpoint_debugger
  _setWatchpoint_debugger : returned_debugger.

(** One entry of the table at a time. *)
Ltac each_entry Hin :=
  unfold _debuggerCommands in Hin; cbn [In] in Hin;
  repeat (destruct Hin as [Hin | Hin]); try contradiction;
  injection Hin as <- <-.

(** X7.  What a handler of the command table may change of the debugger,
    whatever its arguments: none changes the history; the run state is
    set to RUNNING by [c] and [continue], to SHUTDOWN by [q] and [quit],
    and kept by every other command; the CPU is replaced, by its
    successor under the external step, by [n] and [next] only; the
    breakpoint engine is kept by every command but [b], [break], [d],
    [delete], [w] and [watch]; and the printing, reading and break-in
    commands return the debugger exactly as they got it. *)
Theorem handlers_change_only_their_part :
  forall (name : string) (command : DebuggerCommand),
    In (name, command) _debuggerCommands ->
    forall (debugger : CLIDebugger) (dv : list DebugVector),
      histate (fst (command debugger dv)) = histate debugger
      /\ state (d (fst (command debugger dv)))
         = run_state_after name (state (d debugger))
      /\ cpu (d (fst (command debugger dv)))
         = (if name_in name stepping_commands then ARMRun (cpu (d debugger))
            else cpu (d debugger))
      /\ (name_in name engine_commands = false ->
          engine (d (fst (command debugger dv))) = engine (d debugger))
      /\ (name_in name inspecting_commands = true ->
          fst (command debugger dv) = debugger).
Proof.
  intros name command Hin debugger dv.
  each_entry Hin; autorewrite with returned_debugger;
    try destruct (no_int_head dv);
    repeat split; try reflexivity;
    intro H; vm_compute in H; discriminate H.
Qed.

(** The run state each handler of the table leaves. *)
Lemma handler_run_state :
  forall (name : string) (command : DebuggerCommand),
    In (name, command) _debuggerCommands ->
    forall debugger dv,
      state (d (fst (command debugger dv)))
      = run_state_after name (state (d debugger)).
Proof.
  intros name command Hin debugger dv.
  each_entry Hin; autorewrite with returned_debugger;
    try destruct (no_int_head dv); reflexivity.
Qed.

Lemma existsb_bind {A B} (f : Event -> bool) (m : IO A) (k : A -> IO B) :
  existsb f (snd (bind m k)) = existsb f (snd m) || existsb f (snd (k (fst m))).
Proof. rewrite snd_bind. apply existsb_app. Qed.

Lemma _print_loop_quiet dv : existsb changes_machine (snd (_print_loop dv)) = false.
Proof.
  induction dv as [|node dv IH]; [reflexivity|].
  cbn [_print_loop]. rewrite existsb_bind, IH. reflexivity.
Qed.

Lemma _printHex_loop_quiet dv : existsb changes_machine (snd (_printHex_loop dv)) = false.
Proof.
  induction dv as [|node dv IH]; [reflexivity|].
  cbn [_printHex_loop]. rewrite existsb_bind, IH. reflexivity.
Qed.

Lemma _printLine_quiet debugger address mode :
  existsb changes_machine (snd (_printLine debugger address mode)) = false.
Proof. destruct mode; reflexivity. Qed.

Lemma _disassemble_loop_quiet debugger wordSize mode : forall size address,
  existsb changes_machine
    (snd (_disassemble_loop size debugger address wordSize mode)) = false.
Proof.
  induction size as [|size IH]; intro address; [reflexivity|].
  cbn [_disassemble_loop]. rewrite existsb_bind, _printLine_quiet, IH. reflexivity.
Qed.

Lemma _printStatus_quiet debugger dv :
  existsb changes_machine (snd (_printStatus debugger dv)) = false.
Proof.
  unfold _printStatus. rewrite !existsb_bind, _printLine_quiet. reflexivity.
Qed.

(** X8.  Only the stepping commands ([n], [next]) and the engine commands
    ([b], [break], [d], [delete], [w], [watch]) ever step the CPU or call
    the breakpoint engine: the events of every other handler of the
    table, on any debugger and any arguments, are output, memory reads
    and signal calls only. *)
Theorem only_step_and_engine_commands_act :
  forall (name : string) (command : DebuggerCommand),
    In (name, command) _debuggerCommands ->
    name_in name (stepping_commands ++ engine_commands) = false ->
    forall (debugger : CLIDebugger) (dv : list DebugVector),
      existsb changes_machine (snd (command debugger dv)) = false.
Proof.
  intros name command Hin Hname debugger dv.
  each_entry Hin; try (vm_compute in Hname; discriminate Hname); clear Hname.
  - reflexivity.
  - reflexivity.
  - unfold _disassemble. destruct (no_int_head dv);
      rewrite existsb_bind, _disassemble_loop_quiet; reflexivity.
  - unfold _disassemble. destruct (no_int_head dv);
      rewrite existsb_bind, _disassemble_loop_quiet; reflexivity.
  - apply _printStatus_quiet.
  - apply _printStatus_quiet.
  - unfold _print. rewrite existsb_bind, _print_loop_quiet. reflexivity.
  - unfold _printHex. rewrite existsb_bind, _printHex_loop_quiet. reflexivity.
  - unfold _print. rewrite existsb_bind, _print_loop_quiet. reflexivity.
  - unfold _printHex. rewrite existsb_bind, _printHex_loop_quiet. reflexivity.
  - reflexivity.
  - reflexivity.
  - unfold _readByte. destruct (no_int_head dv); reflexivity.
  - unfold _readHalfword. destruct (no_int_head dv); reflexivity.
  - unfold _readWord. destruct (no_int_head dv); reflexivity.
  - apply _printStatus_quiet.
  - reflexivity.
Qed.

(** X9.  A dispatch that returns 0 has changed nothing: the debugger is
    the one [_parse] was given, and the only event is one line of
    output, "Parse error" or "Command not found". *)
Theorem failed_dispatch_changes_nothing :
  forall (debugger : CLIDebugger) (line : string) (count : Z),
    fst (fst (_parse debugger line count)) = 0 ->
    snd (fst (_parse debugger line count)) = debugger
    /\ (snd (_parse debugger line count) = [Stdout ("Parse error" ++ nl)]
        \/ snd (_parse debugger line count) = [Stdout ("Command not found" ++ nl)]).
Proof.
  intros debugger line count.
  unfold _parse. rewrite (_parse_with_stages _ debugger line count table_nul_free).
  destruct (error_head (arguments_of line count)).
  - intros _. split; [reflexivity|]. left. reflexivity.
  - destruct (find _ _debuggerCommands) as [[name command]|].
    + rewrite bind_ret. cbn [fst snd]. discriminate.
    + intros _. split; [reflexivity|]. right. reflexivity.
Qed.

(** X10.  Whenever [_parse] calls a handler (it returns 1), the argument
    sequence the handler receives has INT nodes only, each holding a
    value of the [int32_t] range: a handler need not look at the node
    types to be safe from ERROR nodes. *)
Theorem handlers_receive_integers :
  forall (debugger : CLIDebugger) (line : string) (count : Z),
    fst (fst (_parse debugger line count)) = 1 ->
    Forall (fun node => type node = DV_INT_TYPE
                        /\ - 2 ^ 31 <= intValue node < 2 ^ 31)
      (arguments_of line count).
Proof.
  intros debugger line count H.
  destruct (_parse_result debugger line count) as [_ [H1 _]].
  apply H1 in H as [He _]. unfold arguments_of in *.
  destruct (strchr line SPACE) as [firstSpace|]; [|constructor].
  apply no_failure_of_clear_head in He.
  unfold _DVParse. unfold segments in He. rewrite (_DVParse_rec_values _ _ _ He).
  apply Forall_forall. intros node Hin. apply in_map_iff in Hin as [seg [<- _]].
  split; [reflexivity|apply int32_range].
Qed.

End TableAtLarge.

(** ** Disassembly *)

Section DisassemblyAtLarge.
Context {C : Collaborators}.

Local Open Scope string_scope.
Local Open Scope Z_scope.

Lemma _printLine_fetch debugger address mode :
  filter is_service_call (snd (_printLine debugger address mode))
  = [ fetch mode address ]
  /\ printed (snd (_printLine debugger address mode)) = 1%nat.
Proof. destruct mode; split; reflexivity. Qed.

Lemma printed_app es1 es2 : printed (es1 ++ es2) = (printed es1 + printed es2)%nat.
Proof.
  induction es1 as [|e es1 IH]; [reflexivity|].
  destruct e; simpl; rewrite IH; reflexivity.
Qed.

(** What the loop of [_disassemble] fetches and prints. *)
Lemma _disassemble_loop_fetches debugger mode : forall size address,
  0 <= address <= UINT32_MAX ->
  filter is_service_call
    (snd (_disassemble_loop size debugger address (word_size mode) mode))
  = map (fun i => fetch mode (uint32 (address + Z.of_nat i * word_size mode)))
        (seq 0 size)
  /\ printed (snd (_disassemble_loop size debugger address (word_size mode) mode))
     = size.
Proof.
  induction size as [|size IH]; intros address Ha; [split; reflexivity|].
  cbn [_disassemble_loop]. rewrite snd_bind, filter_app, printed_app.
  destruct (_printLine_fetch debugger address mode) as [Ef Ep]. rewrite Ef, Ep.
  assert (Hnext : 0 <= uint32 (address + word_size mode) <= UINT32_MAX).
  { unfold uint32, UINT32_MAX.
    pose proof (Z.mod_pos_bound (address + word_size mode) (2 ^ 32)). lia. }
  cbn [fst]. destruct (IH _ Hnext) as [IHf IHp]. rewrite IHf, IHp.
  split; [|reflexivity].
  cbn [seq map app]. f_equal.
  - f_equal. unfold uint32, UINT32_MAX in *. rewrite Z.mod_small by lia. lia.
  - rewrite <- seq_shift, map_map. apply map_ext. intro i. f_equal.
    unfold uint32. rewrite Zplus_mod_idemp_l. f_equal.
    rewrite Nat2Z.inj_succ. ring.
Qed.

Lemma uint32_fits z : 0 <= uint32 z <= UINT32_MAX.
Proof.
  unfold uint32, UINT32_MAX. pose proof (Z.mod_pos_bound z (2 ^ 32)). lia.
Qed.

(** X11.  [_disassemble] fetches and prints one instruction per line,
    at addresses that advance by the word size of the execution mode (4
    in ARM mode, 2 in Thumb mode) and wrap at 2^32.  With an address and
    a count it prints as many lines as the count says, none for a count
    of zero or less, ignoring any further argument; with an address alone
    it prints one line; without an integer at the head it prints the one
    line in front of the program counter.  It returns the debugger as
    given. *)
Theorem disassemble_fetches_count_lines :
  forall (debugger : CLIDebugger) (dv : list DebugVector),
    let mode := executionMode (cpu (d debugger)) in
    let loads := filter is_service_call (snd (_disassemble debugger dv)) in
    let lines := printed (snd (_disassemble debugger dv)) in
    fst (_disassemble debugger dv) = debugger
    /\ (no_int_head dv = true ->
        loads = [ fetch mode (uint32 (gprs (cpu (d debugger)) ARM_PC - word_size mode)) ]
        /\ lines = 1%nat)
    /\ (forall address rest,
          dv = mkDV DV_INT_TYPE address :: rest -> no_int_head rest = true ->
          loads = [ fetch mode (uint32 address) ] /\ lines = 1%nat)
    /\ (forall address size rest,
          dv = mkDV DV_INT_TYPE address :: mkDV DV_INT_TYPE size :: rest ->
          loads = map (fun i => fetch mode
                                  (uint32 (uint32 address
                                           + Z.of_nat i * word_size mode)))
                      (seq 0 (Z.to_nat size))
          /\ lines = Z.to_nat size).
Proof.
  intros debugger dv mode loads lines.
  split; [apply _disassemble_debugger|].
  assert (Hloop : forall size address,
    0 <= address <= UINT32_MAX ->
    filter is_service_call
      (snd (bind (_disassemble_loop size debugger address (word_size mode) mode)
                 (fun _ => ret debugger)))
    = map (fun i => fetch mode (uint32 (address + Z.of_nat i * word_size mode)))
          (seq 0 size)
    /\ printed
         (snd (bind (_disassemble_loop size debugger address (word_size mode) mode)
                    (fun _ => ret debugger))) = size).
  { intros size address Ha. rewrite snd_bind. cbn [ret snd]. rewrite app_nil_r.
    apply _disassemble_loop_fetches. exact Ha. }
  assert (Hone : forall address, 0 <= address <= UINT32_MAX ->
            map (fun i => fetch mode (uint32 (address + Z.of_nat i * word_size mode)))
                (seq 0 1) = [ fetch mode address ]).
  { intros address Ha. cbn [seq map]. f_equal. f_equal.
    unfold uint32, UINT32_MAX in *. rewrite Z.mod_small by lia. lia. }
  subst loads lines. unfold _disassemble. fold mode.
  change (match mode with
          | MODE_ARM => WORD_SIZE_ARM
          | MODE_THUMB => WORD_SIZE_THUMB
          end) with (word_size mode).
  split; [|split].
  - intro Hh. rewrite Hh. cbv zeta. rewrite Hh.
    destruct (Hloop 1%nat _ (uint32_fits (gprs (cpu (d debugger)) ARM_PC - word_size mode)))
      as [Ef Ep].
    change (Z.to_nat 1) with 1%nat. rewrite Ef, Ep.
    split; [apply Hone; apply uint32_fits | reflexivity].
  - intros address rest -> Hrest. cbn [no_int_head type DVType_eqb negb hd tl intValue].
    rewrite Hrest.
    destruct (Hloop 1%nat _ (uint32_fits address)) as [Ef Ep].
    change (Z.to_nat 1) with 1%nat. rewrite Ef, Ep.
    split; [apply Hone; apply uint32_fits | reflexivity].
  - intros address size rest ->. cbn [no_int_head type DVType_eqb negb hd tl intValue].
    destruct (Hloop (Z.to_nat size) _ (uint32_fits address)) as [Ef Ep].
    rewrite Ef, Ep. split; reflexivity.
Qed.

End DisassemblyAtLarge.

(** ** The console loop *)

Section LoopAtLarge.
Context {C : Collaborators}.

Local Open Scope string_scope.
Local Open Scope Z_scope.

Lemma DebuggerState_paused_dec (s : DebuggerState) :
  {s = DEBUGGER_PAUSED} + {s <> DEBUGGER_PAUSED}.
Proof. destruct s; (left; reflexivity) || (right; discriminate). Qed.

(** Out of the PAUSED state the loop reads nothing. *)
Lemma _commandLine_loop_unpaused input debugger :
  state (d debugger) <> DEBUGGER_PAUSED ->
  _commandLine_loop input debugger = ((debugger, input), []).
Proof.
  intro H. destruct input; cbn [_commandLine_loop];
    destruct (state (d debugger)); try reflexivity; contradiction.
Qed.

Lemma _commandLine_loop_paused line input debugger :
  state (d debugger) = DEBUGGER_PAUSED ->
  _commandLine_loop (line :: input) debugger
  = (cliDebugger' <- _commandLine_turn debugger line ;;
     _commandLine_loop input cliDebugger').
Proof. intro H. cbn [_commandLine_loop]. rewrite H. reflexivity. Qed.

(** X12.  [_commandLine] returns out of the PAUSED state only: a handler
    has set another state or the end of input has set EXITING.  It
    reads its lines in order and hands back, unread, the lines behind
    the one that ended it. *)
Theorem console_loop_returns_unpaused :
  forall (input : list string) (debugger : CLIDebugger),
    state (d (fst (fst (_commandLine debugger input)))) <> DEBUGGER_PAUSED
    /\ exists consumed,
         input = (consumed ++ snd (fst (_commandLine debugger input)))%list.
Proof.
  intros input debugger. unfold _commandLine. rewrite fst_bind.
  revert debugger.
  induction input as [|line input IH]; intro debugger.
  - destruct (DebuggerState_paused_dec (state (d debugger))) as [Hp | Hp].
    + cbn [_commandLine_loop]. rewrite Hp. cbn. split; [discriminate|].
      exists []. reflexivity.
    + rewrite (_commandLine_loop_unpaused [] debugger Hp). cbn [fst snd].
      split; [exact Hp|]. exists []. reflexivity.
  - destruct (DebuggerState_paused_dec (state (d debugger))) as [Hp | Hp].
    + rewrite (_commandLine_loop_paused line input debugger Hp), fst_bind.
      destruct (IH (fst (_commandLine_turn debugger line))) as [Hs [consumed Hc]].
      split; [exact Hs|]. exists (line :: consumed). cbn. f_equal. exact Hc.
    + rewrite (_commandLine_loop_unpaused _ debugger Hp). cbn [fst snd].
      split; [exact Hp|]. exists []. reflexivity.
Qed.

Lemma name_in_In name names : name_in name names = true -> In name names.
Proof.
  unfold name_in. intro H. apply existsb_exists in H as [x [Hin Hx]].
  apply String.eqb_eq in Hx. subst x. exact Hin.
Qed.

(** A line that names no command ending the loop leaves the run state
    and the history to [_parse]. *)
Lemma _parse_keeps_state debugger line :
  stops_console line = false ->
  state (d (snd (fst (_parse debugger line (size_t (strlen line - 1))))))
  = state (d debugger).
Proof.
  intro Hs. unfold _parse.
  rewrite (_parse_with_stages _ debugger line _ table_nul_free).
  destruct (error_head _); [reflexivity|].
  destruct (find _ _debuggerCommands) as [[name command]|] eqn:Ef; [|reflexivity].
  rewrite bind_ret. cbn [fst snd].
  apply find_some in Ef. destruct Ef as [Hin Hm]. cbn [fst] in Hm.
  rewrite (handler_run_state name command Hin).
  unfold run_state_after.
  assert (Hno : forall names,
            incl names (resuming_commands ++ quitting_commands)%list ->
            name_in name names = false).
  { intros names Hincl. destruct (name_in name names) eqn:E; [|reflexivity].
    apply name_in_In in E. apply Hincl in E.
    unfold stops_console in Hs.
    assert (Ht : existsb (names_verb line (size_t (strlen line - 1)))
                   (resuming_commands ++ quitting_commands)%list = true).
    { apply existsb_exists. exists name. split; [exact E|exact Hm]. }
    rewrite Ht in Hs. discriminate. }
  rewrite (Hno resuming_commands) by (apply incl_appl; apply incl_refl).
  rewrite (Hno quitting_commands) by (apply incl_appr; apply incl_refl).
  reflexivity.
Qed.

Lemma Forall_firstn_of {A} (P : A -> Prop) n (l : list A) :
  Forall P l -> Forall P (firstn n l).
Proof.
  revert n. induction l as [|x l IH]; intros [|n] H; cbn; auto.
  inversion H; subst. constructor; auto.
Qed.

Lemma _commandLine_turn_keeps_paused debugger line :
  harmless line -> Forall harmless (histate debugger) ->
  state (d (fst (_commandLine_turn debugger line))) = state (d debugger)
  /\ Forall harmless (histate (fst (_commandLine_turn debugger line))).
Proof.
  intros Hl Hh. unfold _commandLine_turn.
  destruct (Ascii.eqb (deref line) NEWLINE).
  - destruct (histate debugger) as [|str older] eqn:Eh.
    + cbn [ret fst]. rewrite Eh. split; [reflexivity|constructor].
    + rewrite bind_ret. cbn [fst].
      inversion Hh as [|? ? Hstr Holder]; subst.
      rewrite (_parse_keeps_state debugger str Hstr).
      destruct (_parse_result debugger str (size_t (strlen str - 1))) as [_ [_ Hr]].
      rewrite Hr, Eh. split; [reflexivity|exact Hh].
  - rewrite fst_bind.
    pose proof (_parse_keeps_state debugger line Hl) as Hst.
    destruct (_parse_result debugger line (size_t (strlen line - 1))) as [_ [_ Hr]].
    destruct (negb (fst (fst (_parse debugger line (size_t (strlen line - 1)))) =? 0)).
    + cbn [ret fst]. unfold history_enter, set_histate. cbn [d histate].
      rewrite Hst, Hr. split; [reflexivity|].
      apply Forall_firstn_of. constructor; assumption.
    + cbn [ret fst]. rewrite Hst, Hr. split; [reflexivity|exact Hh].
Qed.

(** X13.  The console keeps reading as long as nothing ends it: from the
    PAUSED state, when no line of the input and no line of the history
    names [c], [continue], [q] or [quit] (in any case), the loop reads
    every line and ends on the end of input, in the EXITING state. *)
Theorem console_reads_to_the_end_of_input :
  forall (input : list string) (debugger : CLIDebugger),
    state (d debugger) = DEBUGGER_PAUSED ->
    Forall (fun line => stops_console line = false) input ->
    Forall (fun line => stops_console line = false) (histate debugger) ->
    state (d (fst (fst (_commandLine debugger input)))) = DEBUGGER_EXITING
    /\ snd (fst (_commandLine debugger input)) = [].
Proof.
  intros input debugger Hp Hin Hh. unfold _commandLine. rewrite fst_bind.
  revert debugger Hp Hh.
  induction Hin as [|line input Hl Hin IH]; intros debugger Hp Hh.
  - cbn [_commandLine_loop]. rewrite Hp. split; reflexivity.
  - rewrite (_commandLine_loop_paused line input debugger Hp), fst_bind.
    destruct (_commandLine_turn_keeps_paused debugger line Hl Hh) as [Hs Hh'].
    apply IH; [rewrite Hs; exact Hp | exact Hh'].
Qed.

End LoopAtLarge.

Section LoopEnds.
Context {C : Collaborators}.

Local Open Scope string_scope.
Local Open Scope Z_scope.

(** X14.  A line that is not blank, whose verb spells [c], [continue],
    [q] or [quit] in any case and whose arguments build without error,
    ends the loop: from the PAUSED state the loop sets the state to
    RUNNING (for [c] and [continue]) or SHUTDOWN (for [q] and [quit]),
    records the line in the history, prints nothing, and returns with
    every later line unread. *)
Theorem ending_command_ends_the_loop :
  forall (debugger : CLIDebugger) (line : string) (rest : list string)
         (name : string),
    state (d debugger) = DEBUGGER_PAUSED ->
    Ascii.eqb (deref line) NEWLINE = false ->
    name_in name (resuming_commands ++ quitting_commands) = true ->
    names_verb line (size_t (strlen line - 1)) name = true ->
    error_head (arguments_of line (size_t (strlen line - 1))) = false ->
    _commandLine_loop (line :: rest) debugger
    = ((history_enter line
          (set_state (run_state_after name DEBUGGER_PAUSED) debugger), rest), []).
Proof.
  intros debugger line rest name Hp Hb Hname Hverb Hargs.
  assert (Hcmd : exists command : DebuggerCommand,
            handler_of name = Some command
            /\ run_state_after name DEBUGGER_PAUSED <> DEBUGGER_PAUSED
            /\ forall dv, command debugger dv
                 = (set_state (run_state_after name DEBUGGER_PAUSED) debugger, [])).
  { apply name_in_In in Hname. cbn in Hname.
    destruct Hname as [<- | [<- | [<- | [<- | []]]]].
    - exists _continue. repeat split. discriminate.
    - exists _continue. repeat split. discriminate.
    - exists _quit. repeat split. discriminate.
    - exists _quit. repeat split. discriminate. }
  destruct Hcmd as [command [Hh [Hne Hc]]].
  assert (Hparse : _parse debugger line (size_t (strlen line - 1))
                   = ((1, set_state (run_state_after name DEBUGGER_PAUSED) debugger), [])).
  { unfold _parse.
    rewrite (_parse_with_stages _ debugger line _ table_nul_free), Hargs.
    unfold names_verb in *.
    rewrite (find_bound_handler _ name command line _ table_distinct_names Hh Hverb).
    rewrite bind_ret, Hc. reflexivity. }
  rewrite (_commandLine_loop_paused line rest debugger Hp).
  unfold _commandLine_turn. rewrite Hb, Hparse.
  unfold bind at 2. cbn [fst snd Z.eqb negb ret app].
  unfold bind.
  rewrite _commandLine_loop_unpaused; [reflexivity|].
  unfold history_enter, set_histate, set_state. cbn [d state]. exact Hne.
Qed.

Lemma In_firstn_of {A} (x : A) n (l : list A) : In x (firstn n l) -> In x l.
Proof.
  intro H. rewrite <- (firstn_skipn n l). apply in_or_app. left. exact H.
Qed.

(** A turn adds at most its own line to the history, and never a blank
    one. *)
Lemma _commandLine_turn_history debugger line :
  histate (fst (_commandLine_turn debugger line)) = histate debugger
  \/ (Ascii.eqb (deref line) NEWLINE = false
      /\ fst (fst (_parse debugger line (size_t (strlen line - 1)))) = 1
      /\ histate (fst (_commandLine_turn debugger line))
         = firstn HISTORY_SIZE (line :: histate debugger)).
Proof.
  unfold _commandLine_turn.
  destruct (Ascii.eqb (deref line) NEWLINE).
  - left. destruct (histate debugger) as [|str older] eqn:Eh; [exact Eh|].
    rewrite bind_ret. cbn [fst].
    destruct (_parse_result debugger str (size_t (strlen str - 1))) as [_ [_ Hr]].
    rewrite Hr. exact Eh.
  - rewrite fst_bind.
    destruct (_parse_result debugger line (size_t (strlen line - 1)))
      as [H01 [_ Hr]].
    destruct H01 as [H0 | H1].
    + left. rewrite H0. cbn. exact Hr.
    + right. rewrite H1. cbn. rewrite Hr. auto.
Qed.

(** X15.  Whatever the input, every entry of the history [_commandLine]
    leaves was in the history before or is a line of the input that is
    not blank and that, when its turn came, was dispatched with the
    result 1: the loop never records a blank line, a line that failed to
    parse or a line with an unknown verb, and never invents an entry. *)
Theorem history_holds_only_handled_lines :
  forall (input : list string) (debugger : CLIDebugger),
    Forall (fun entry =>
              In entry (histate debugger)
              \/ (In entry input
                  /\ Ascii.eqb (deref entry) NEWLINE = false
                  /\ exists during : CLIDebugger,
                       fst (fst (_parse during entry (size_t (strlen entry - 1)))) = 1))
      (histate (fst (fst (_commandLine debugger input)))).
Proof.
  intros input debugger. unfold _commandLine. rewrite fst_bind.
  revert debugger.
  induction input as [|line input IH]; intro debugger.
  - destruct (DebuggerState_paused_dec (state (d debugger))) as [Hp | Hp].
    + cbn [_commandLine_loop]. rewrite Hp. cbn.
      apply Forall_forall. intros entry Hin. left. exact Hin.
    + rewrite (_commandLine_loop_unpaused [] debugger Hp). cbn [fst].
      apply Forall_forall. intros entry Hin. left. exact Hin.
  - destruct (DebuggerState_paused_dec (state (d debugger))) as [Hp | Hp].
    + rewrite (_commandLine_loop_paused line input debugger Hp), fst_bind.
      specialize (IH (fst (_commandLine_turn debugger line))).
      eapply Forall_impl; [|exact IH].
      intros entry [Hin | [Hin Hrest]].
      * destruct (_commandLine_turn_history debugger line) as [E | [Hb [H1 E]]].
        -- left. rewrite <- E. exact Hin.
        -- rewrite E in Hin. apply In_firstn_of in Hin.
           destruct Hin as [<- | Hin]; [|left; exact Hin].
           right. split; [left; reflexivity|]. split; [exact Hb|].
           exists debugger. exact H1.
      * right. split; [right; exact Hin|exact Hrest].
    + rewrite (_commandLine_loop_unpaused _ debugger Hp). cbn [fst].
      apply Forall_forall. intros entry Hin. left. exact Hin.
Qed.

End LoopEnds.

(** ** Tab completion *)

Section CompletionAtLarge.
Context {C : Collaborators}.

Local Open Scope string_scope.
Local Open Scope Z_scope.

Lemma char_code_nonneg c : 0 <= char_code c.
Proof. unfold char_code. lia. Qed.

Lemma tolower_code_zero c : char_code (tolower c) = 0 -> c = NUL.
Proof.
  intro H. apply tolower_NUL. apply Ascii.eqb_eq. apply char_code_inj.
  rewrite H. reflexivity.
Qed.

Lemma strncasecmp_nonpos s1 s2 n : n <= 0 -> strncasecmp s1 s2 n = 0.
Proof.
  intro H. destruct s1; simpl; destruct (Z.leb_spec n 0); try lia; reflexivity.
Qed.

(** A comparison that is decided stays as it is when more characters are
    compared. *)
Lemma strncasecmp_persists name : forall buffer n m,
  strncasecmp name buffer n <> 0 -> n <= m ->
  strncasecmp name buffer m = strncasecmp name buffer n.
Proof.
  induction name as [|c name IH]; intros buffer n m Hne Hle;
    (destruct (Z.leb_spec n 0) as [Hn | Hn];
     [exfalso; apply Hne; apply strncasecmp_nonpos; exact Hn|]);
    rewrite (strncasecmp_pos _ buffer n Hn) in *;
    rewrite (strncasecmp_pos _ buffer m) by lia.
  - reflexivity.
  - destruct (Ascii.eqb (tolower c) (tolower (deref buffer))); [|reflexivity].
    apply IH; [exact Hne | lia].
Qed.

(** Along names in sorted order the sign of the comparison with a text
    never goes down. *)
Lemma strncasecmp_sorted a : forall b buffer n,
  nul_free b = true -> name_le a b = true ->
  (strncasecmp a buffer n > 0 -> strncasecmp b buffer n > 0)
  /\ (strncasecmp a buffer n = 0 -> strncasecmp b buffer n >= 0).
Proof.
  induction a as [|x a IH]; intros b buffer n Hb Hle;
    (destruct (Z.leb_spec n 0) as [Hn | Hn];
     [rewrite !strncasecmp_nonpos by exact Hn; lia|]);
    rewrite (strncasecmp_pos _ buffer n Hn);
    rewrite (strncasecmp_pos b buffer n Hn).
  - change (char_code (tolower NUL)) with 0.
    pose proof (char_code_nonneg (tolower (deref buffer))) as Hz.
    split; [lia|]. intro H0.
    destruct b as [|y b]; [change (char_code (tolower NUL)) with 0; lia|].
    cbn [nul_free] in Hb. apply andb_true_iff in Hb as [Hy Hb].
    destruct (Ascii.eqb (tolower y) (tolower (deref buffer))) eqn:E.
    + exfalso. apply Ascii.eqb_eq in E.
      assert (y = NUL) by (apply tolower_code_zero; rewrite E; lia).
      subst y. discriminate.
    + pose proof (char_code_nonneg (tolower y)). lia.
  - destruct b as [|y b]; [discriminate|].
    cbn [nul_free] in Hb. apply andb_true_iff in Hb as [Hy Hb].
    cbn [name_le] in Hle. apply orb_true_iff in Hle as [Hlt | Heq].
    + apply Z.ltb_lt in Hlt.
      destruct (Ascii.eqb (tolower x) (tolower (deref buffer))) eqn:Ex.
      * apply Ascii.eqb_eq in Ex.
        destruct (Ascii.eqb (tolower y) (tolower (deref buffer))) eqn:Ey.
        -- apply Ascii.eqb_eq in Ey. rewrite Ex, Ey in Hlt. lia.
        -- rewrite Ex in Hlt. lia.
      * destruct (Ascii.eqb (tolower y) (tolower (deref buffer))) eqn:Ey.
        -- apply Ascii.eqb_eq in Ey. rewrite Ey in Hlt. split; [lia|].
           intro H0. exfalso.
           assert (tolower x = tolower (deref buffer)) by (apply char_code_inj; lia).
           rewrite H, Ascii.eqb_refl in Ex. discriminate.
        -- split; [lia|]. intro H0. exfalso.
           assert (tolower x = tolower (deref buffer)) by (apply char_code_inj; lia).
           rewrite H, Ascii.eqb_refl in Ex. discriminate.
    + apply andb_true_iff in Heq as [Heq Hle]. apply Z.eqb_eq in Heq.
      apply char_code_inj in Heq. rewrite Heq.
      destruct (Ascii.eqb (tolower y) (tolower (deref buffer))).
      * apply IH; assumption.
      * lia.
Qed.

Lemma substring_whole_prefix n : forall s,
  (n <= String.length s)%nat -> String.length (substring 0 n s) = n.
Proof.
  induction n as [|n IH]; intros [|c s] H; simpl in *; try lia.
  rewrite IH by lia. reflexivity.
Qed.

(** A name compares equal to a text over its first [n] characters
    exactly when the name has [n] characters and they are those of the
    text, up to case. *)
Lemma strncasecmp_prefix n : forall name buffer,
  (n <= String.length buffer)%nat -> nul_free buffer = true ->
  (strncasecmp name buffer (Z.of_nat n) =? 0)
  = (n <=? String.length name)%nat
    && same_name (substring 0 n buffer) (substring 0 n name).
Proof.
  induction n as [|n IH]; intros name buffer Hn Hb.
  - rewrite strncasecmp_zero. destruct name, buffer; reflexivity.
  - destruct buffer as [|z buffer]; [simpl in Hn; lia|].
    cbn [nul_free] in Hb. apply andb_true_iff in Hb as [Hz Hb].
    rewrite strncasecmp_pos by lia.
    replace (Z.of_nat (S n) - 1) with (Z.of_nat n) by lia.
    cbn [deref advance].
    destruct name as [|c name].
    + cbn. apply Z.eqb_neq. change (char_code (tolower NUL)) with 0.
      intro H. assert (z = NUL) by (apply tolower_code_zero; lia).
      subst z. discriminate.
    + cbn [String.length substring same_name].
      rewrite (Ascii.eqb_sym (tolower z) (tolower c)).
      destruct (Ascii.eqb (tolower c) (tolower z)) eqn:E.
      * rewrite IH; [reflexivity | simpl in Hn; lia | exact Hb].
      * cbn [andb]. rewrite andb_false_r. apply Z.eqb_neq. intro H.
        assert (tolower c = tolower z) by (apply char_code_inj; lia).
        rewrite H0, Ascii.eqb_refl in E. discriminate.
Qed.

(** Where a scan of the table ends. *)
Lemma _tabComplete_scan_split buffer len :
  forall (entries : list (string * DebuggerCommand)) (cmd : nat),
  match _tabComplete_scan entries cmd buffer len with
  | ScanReturn =>
      exists pre name h post,
        entries = (pre ++ (name, h) :: post)%list
        /\ Forall (sorts_below buffer len) pre
        /\ strncasecmp name buffer len > 0
  | ScanStop cmd' (Some name) =>
      exists pre h post,
        entries = (pre ++ (name, h) :: post)%list
        /\ Forall (sorts_below buffer len) pre
        /\ strncasecmp name buffer len = 0
        /\ cmd' = (cmd + List.length pre)%nat
  | ScanStop cmd' None =>
      Forall (sorts_below buffer len) entries
      /\ cmd' = (cmd + List.length entries)%nat
  end.
Proof.
  induction entries as [|[name h] entries IH]; intro cmd; cbn [_tabComplete_scan].
  - split; [constructor | cbn; lia].
  - destruct (Z.gtb_spec (strncasecmp name buffer len) 0) as [Hgt | Hle].
    + exists [], name, h, entries. repeat split; [constructor | lia].
    + destruct (Z.eqb_spec (strncasecmp name buffer len) 0) as [Heq | Hne].
      * exists [], h, entries. repeat split; [constructor | exact Heq | cbn; lia].
      * assert (Hlow : sorts_below buffer len (name, h))
          by (unfold sorts_below; cbn [fst]; lia).
        specialize (IH (S cmd)).
        destruct (_tabComplete_scan entries (S cmd) buffer len) as [|cmd' [nm|]].
        -- destruct IH as [pre [nm [h' [post [E [Hpre Hgt]]]]]].
           exists ((name, h) :: pre), nm, h', post. rewrite E.
           repeat split; [constructor; assumption | exact Hgt].
        -- destruct IH as [pre [h' [post [E [Hpre [H0 Hc]]]]]].
           exists ((name, h) :: pre), h', post. rewrite E.
           repeat split; [constructor; assumption | exact H0 | cbn; lia].
        -- destruct IH as [Hall Hc].
           split; [constructor; assumption | cbn; lia].
Qed.

Lemma skipn_length_app {A} (l1 l2 : list A) : skipn (List.length l1) (l1 ++ l2) = l2.
Proof. induction l1 as [|x l1 IH]; [reflexivity | exact IH]. Qed.

Lemma sorts_below_persists buffer len (entries : list (string * DebuggerCommand)) :
  forall len', len <= len' ->
  Forall (sorts_below buffer len) entries ->
  Forall (sorts_below buffer len') entries.
Proof.
  intros len' Hle H. eapply Forall_impl; [|exact H].
  intros e He. unfold sorts_below in *.
  rewrite (strncasecmp_persists (fst e) buffer len len');
    [exact He | intro E; rewrite E in He; exact (Z.lt_irrefl 0 He) | exact Hle].
Qed.

(** Where the outer loop of [_tabComplete] ends: on a return, or on the
    first entry that is equal to the text over the characters compared
    last, every entry in front of it sorting below the text, or behind
    the table. *)
Lemma _tabComplete_loop_split buffer :
  forall (steps cmd : nat) (len : Z) (name0 : option string)
         (done todo : list (string * DebuggerCommand)),
  _debuggerCommands = (done ++ todo)%list ->
  List.length done = cmd ->
  Forall (sorts_below buffer len) done ->
  match _tabComplete_loop steps cmd len name0 buffer with
  | None =>
      exists len' pre name h post,
        len <= len' < len + Z.of_nat steps
        /\ _debuggerCommands = (pre ++ (name, h) :: post)%list
        /\ Forall (sorts_below buffer len') pre
        /\ strncasecmp name buffer len' > 0
  | Some (cmd', len', name') =>
      len' = len + Z.of_nat steps
      /\ ((steps = O /\ cmd' = cmd /\ name' = name0)
          \/ (exists pre n h post,
                name' = Some n
                /\ _debuggerCommands = (pre ++ (n, h) :: post)%list
                /\ List.length pre = cmd'
                /\ Forall (sorts_below buffer (len' - 1)) pre
                /\ strncasecmp n buffer (len' - 1) = 0)
          \/ (name' = None
              /\ cmd' = List.length _debuggerCommands
              /\ Forall (sorts_below buffer (len' - 1)) _debuggerCommands))
  end.
Proof.
  induction steps as [|steps IH]; intros cmd len name0 done todo HT Hlen Hdone.
  - cbn [_tabComplete_loop]. split; [cbn; lia|]. left. auto.
  - cbn [_tabComplete_loop].
    replace (skipn cmd _debuggerCommands) with todo
      by (rewrite HT, <- Hlen; symmetry; apply skipn_length_app).
    pose proof (_tabComplete_scan_split buffer len todo cmd) as Hscan.
    destruct (_tabComplete_scan todo cmd buffer len) as [|cmd1 [n1|]].
    + destruct Hscan as [pre [name [h [post [E [Hpre Hgt]]]]]].
      exists len, (done ++ pre)%list, name, h, post.
      split; [lia|]. split; [rewrite HT, E, <- app_assoc; reflexivity|].
      split; [apply Forall_app; auto | exact Hgt].
    + destruct Hscan as [pre [h [post [E [Hpre [H0 Hc]]]]]].
      assert (HT' : _debuggerCommands = ((done ++ pre) ++ (n1, h) :: post)%list)
        by (rewrite HT, E, <- app_assoc; reflexivity).
      assert (Hlen' : List.length (done ++ pre) = cmd1)
        by (rewrite length_app; lia).
      assert (Hbelow : Forall (sorts_below buffer len) (done ++ pre))
        by (apply Forall_app; auto).
      specialize (IH cmd1 (len + 1) (Some n1) (done ++ pre)%list ((n1, h) :: post)
                    HT' Hlen'
                    (sorts_below_persists buffer len _ (len + 1) ltac:(lia) Hbelow)).
      destruct (_tabComplete_loop steps cmd1 (len + 1) (Some n1) buffer)
        as [[[cmd' len'] name']|].
      * destruct IH as [Hl [[Hs [Hc' Hn]] | [H2 | H3]]].
        -- split; [lia|]. right. left.
           exists (done ++ pre)%list, n1, h, post. subst steps cmd' name'.
           replace (len' - 1) with len by lia. auto.
        -- split; [lia|]. right. left. exact H2.
        -- split; [lia|]. right. right. exact H3.
      * destruct IH as [len' [pre' [name [h' [post' [Hr Hrest]]]]]].
        exists len', pre', name, h', post'. split; [lia | exact Hrest].
    + destruct Hscan as [Htodo Hc].
      assert (HT' : _debuggerCommands = (_debuggerCommands ++ [])%list)
        by (rewrite app_nil_r; reflexivity).
      assert (Hlen' : List.length _debuggerCommands = cmd1)
        by (rewrite HT at 1; rewrite length_app; lia).
      assert (Hbelow : Forall (sorts_below buffer len) _debuggerCommands)
        by (rewrite HT; apply Forall_app; auto).
      specialize (IH cmd1 (len + 1) None _debuggerCommands [] HT' Hlen'
                    (sorts_below_persists buffer len _ (len + 1) ltac:(lia) Hbelow)).
      destruct (_tabComplete_loop steps cmd1 (len + 1) None buffer)
        as [[[cmd' len'] name']|].
      * destruct IH as [Hl [[Hs [Hc' Hn]] | [H2 | H3]]].
        -- split; [lia|]. right. right. subst steps cmd' name'.
           replace (len' - 1) with len by lia. auto.
        -- split; [lia|]. right. left. exact H2.
        -- split; [lia|]. right. right. exact H3.
      * destruct IH as [len' [pre' [name [h' [post' [Hr Hrest]]]]]].
        exists len', pre', name, h', post'. split; [lia | exact Hrest].
Qed.

Lemma shares_prefix_compare buffer cursor name :
  (cursor <= String.length buffer)%nat -> nul_free buffer = true ->
  shares_prefix (substring 0 cursor buffer) name
  = (strncasecmp name buffer (Z.of_nat cursor) =? 0).
Proof.
  intros Hc Hb. unfold shares_prefix.
  rewrite (substring_whole_prefix cursor buffer Hc).
  symmetry. apply strncasecmp_prefix; assumption.
Qed.

Lemma sorted_names_behind names1 : forall x names2,
  sorted_names (names1 ++ x :: names2) = true ->
  forallb (name_le x) names2 = true.
Proof.
  induction names1 as [|y names1 IH]; intros x names2 H; cbn [app sorted_names] in H;
    apply andb_true_iff in H as [H1 H2]; [exact H1 | exact (IH _ _ H2)].
Qed.

Lemma filter_none {A} (f : A -> bool) (l : list A) :
  (forall x, In x l -> f x = false) -> filter f l = [].
Proof.
  induction l as [|x l IH]; intro H; [reflexivity|].
  cbn [filter]. rewrite (H x (or_introl eq_refl)). apply IH.
  intros y Hy. apply H. right. exact Hy.
Qed.

Lemma nth_error_behind {A} (pre : list A) x post :
  nth_error (pre ++ x :: post) (List.length pre + 1) = nth_error post 0.
Proof. induction pre as [|y pre IH]; [reflexivity | exact IH]. Qed.

Lemma table_sorted : sorted_names (map fst _debuggerCommands) = true.
Proof. reflexivity. Qed.

(** In a split of the table, the names behind an entry are sorted
    behind it and free of NUL. *)
Lemma table_behind pre name (h : DebuggerCommand) post :
  _debuggerCommands = (pre ++ (name, h) :: post)%list ->
  forall e, In e post -> name_le name (fst e) = true /\ nul_free (fst e) = true.
Proof.
  intros HT e He.
  pose proof table_sorted as Hs. pose proof table_nul_free as Hn.
  rewrite HT, map_app in Hs, Hn. cbn [map fst] in Hs, Hn.
  apply sorted_names_behind in Hs.
  rewrite forallb_app in Hn. apply andb_true_iff in Hn as [_ Hn].
  cbn [forallb] in Hn. apply andb_true_iff in Hn as [_ Hn].
  rewrite forallb_forall in Hs, Hn.
  split; [apply Hs | apply Hn]; apply in_map; exact He.
Qed.

(** X16.  What [_tabComplete] does with the text in front of the cursor,
    set against the commands that share that text as a prefix, up to
    case.  With exactly one such command it inserts the rest of its name
    and a space.  With two or more it returns CC_ERROR and inserts
    nothing.  With none it returns CC_ERROR, unless every command name
    sorts in front of the typed text: then the scan runs off the table
    and the behaviour is undefined. *)
Theorem completion_against_the_candidates :
  forall (buffer : string) (cursor : nat),
    (cursor <= String.length buffer)%nat ->
    nul_free buffer = true ->
    match candidates (substring 0 cursor buffer) with
    | [] =>
        _tabComplete buffer cursor
        = if forallb (fun name => strncasecmp name buffer (Z.of_nat cursor) <? 0)
               (map fst _debuggerCommands)
          then Undefined else CC_ERROR
    | [ name ] =>
        _tabComplete buffer cursor = CC_REDISPLAY (advance cursor name ++ " ")
    | _ :: _ :: _ => _tabComplete buffer cursor = CC_ERROR
    end.
Proof.
  intros buffer cursor Hc Hb.
  set (n := Z.of_nat cursor).
  assert (Hcand : candidates (substring 0 cursor buffer)
                  = filter (fun name => strncasecmp name buffer n =? 0)
                           (map fst _debuggerCommands)).
  { unfold candidates. apply filter_ext. intro name.
    apply shares_prefix_compare; assumption. }
  rewrite Hcand. clear Hcand.
  pose proof (_tabComplete_loop_split buffer (S cursor) 0 0 None [] _debuggerCommands
                eq_refl eq_refl (Forall_nil _)) as Hloop.
  unfold _tabComplete.
  destruct (_tabComplete_loop (S cursor) 0 0 None buffer) as [[[cmd len] name]|].
  - destruct Hloop as [Hlen [[Hs _] | [H2 | H3]]]; [discriminate | |].
    + destruct H2 as [pre [n0 [h [post [-> [HT [Hpre [Hbelow H0]]]]]]]].
      replace (len - 1) with n in * by lia.
      assert (Hfront : filter (fun name => strncasecmp name buffer n =? 0)
                         (map fst pre) = []).
      { apply filter_none. intros x Hx. apply in_map_iff in Hx as [e [<- He]].
        rewrite Forall_forall in Hbelow. specialize (Hbelow e He).
        unfold sorts_below in Hbelow. apply Z.eqb_neq. lia. }
      assert (Hnext : command_name (cmd + 1) = Some (option_map fst (nth_error post 0))).
      { unfold command_name. rewrite HT, <- Hpre, nth_error_behind.
        destruct post as [|[n1 h1] post]; cbn [nth_error option_map].
        - rewrite length_app. cbn [List.length].
          rewrite Nat.add_comm with (n := List.length pre), Nat.eqb_refl.
          reflexivity.
        - reflexivity. }
      rewrite Hnext, HT, map_app, filter_app, Hfront. cbn [map fst filter app].
      rewrite H0. cbn [Z.eqb].
      subst n. rewrite Nat2Z.id.
      destruct post as [|[n1 h1] post]; cbn [nth_error option_map fst map filter].
      * reflexivity.
      * destruct (Z.eqb_spec (strncasecmp n1 buffer (Z.of_nat cursor)) 0) as [H1 | H1].
        -- reflexivity.
        -- assert (Hrest : filter (fun name => strncasecmp name buffer (Z.of_nat cursor) =? 0)
                             (map fst post) = []).
           { apply filter_none. intros x Hx. apply in_map_iff in Hx as [e [<- He]].
             destruct (table_behind pre n0 h ((n1, h1) :: post) HT (n1, h1)
                         (or_introl eq_refl)) as [Hle1 Hnf1].
             destruct (table_behind pre n0 h ((n1, h1) :: post) HT e
                         (or_intror He)) as [Hle Hnf].
             cbn [fst] in Hle1, Hnf1.
             destruct (strncasecmp_sorted n0 n1 buffer (Z.of_nat cursor) Hnf1 Hle1)
               as [_ Hge1].
             specialize (Hge1 H0).
             assert (HT1 : _debuggerCommands
                           = ((pre ++ [(n0, h)]) ++ (n1, h1) :: post)%list)
               by (rewrite HT, <- app_assoc; reflexivity).
             destruct (table_behind _ n1 h1 post HT1 e He) as [Hle' _].
             destruct (strncasecmp_sorted n1 (fst e) buffer (Z.of_nat cursor) Hnf Hle')
               as [Hgt _].
             apply Z.eqb_neq. lia. }
           rewrite Hrest. reflexivity.
    + destruct H3 as [-> [-> Hbelow]].
      replace (len - 1) with n in * by lia.
      assert (Hnone : filter (fun name => strncasecmp name buffer n =? 0)
                        (map fst _debuggerCommands) = []).
      { apply filter_none. intros x Hx. apply in_map_iff in Hx as [e [<- He]].
        rewrite Forall_forall in Hbelow. specialize (Hbelow e He).
        unfold sorts_below in Hbelow. apply Z.eqb_neq. lia. }
      rewrite Hnone.
      assert (Hall : forallb (fun name => strncasecmp name buffer n <? 0)
                       (map fst _debuggerCommands) = true).
      { apply forallb_forall. intros x Hx. apply in_map_iff in Hx as [e [<- He]].
        rewrite Forall_forall in Hbelow. specialize (Hbelow e He).
        unfold sorts_below in Hbelow. apply Z.ltb_lt. exact Hbelow. }
      rewrite Hall. reflexivity.
  - destruct Hloop as [len' [pre [name [h [post [Hr [HT [Hpre Hgt]]]]]]]].
    assert (Hle : len' <= n) by lia.
    assert (Hdecided : forall e, In e _debuggerCommands ->
              strncasecmp (fst e) buffer len' <> 0).
    { intros e He. rewrite HT in He. apply in_app_or in He as [He | [<- | He]].
      - rewrite Forall_forall in Hpre. specialize (Hpre e He).
        unfold sorts_below in Hpre. lia.
      - cbn [fst]. lia.
      - destruct (table_behind pre name h post HT e He) as [Hle' Hnf].
        destruct (strncasecmp_sorted name (fst e) buffer len' Hnf Hle') as [Hgt' _].
        specialize (Hgt' Hgt). lia. }
    assert (Hnone : filter (fun name => strncasecmp name buffer n =? 0)
                      (map fst _debuggerCommands) = []).
    { apply filter_none. intros x Hx. apply in_map_iff in Hx as [e [<- He]].
      apply Z.eqb_neq.
      rewrite (strncasecmp_persists (fst e) buffer len' n (Hdecided e He) Hle).
      apply Hdecided. exact He. }
    rewrite Hnone.
    assert (Hnot : forallb (fun name => strncasecmp name buffer n <? 0)
                     (map fst _debuggerCommands) = false).
    { destruct (forallb _ (map fst _debuggerCommands)) eqn:E; [|reflexivity].
      exfalso. rewrite forallb_forall in E.
      assert (Hin : In name (map fst _debuggerCommands)).
      { rewrite HT, map_app. apply in_or_app. right. left. reflexivity. }
      specialize (E name Hin). apply Z.ltb_lt in E.
      assert (Hne : strncasecmp name buffer len' <> 0) by lia.
      rewrite (strncasecmp_persists name buffer len' n Hne Hle) in E. lia. }
    rewrite Hnot. reflexivity.
Qed.

End CompletionAtLarge.

(** ** The status dump and the announcements *)

Section StatusAtLarge.
Context {C : Collaborators}.

Local Open Scope string_scope.
Local Open Scope Z_scope.

(** X17.  The last line of the status dump is the line [dis] prints
    without arguments: when the execution mode of the CPU is the one its
    status word shows (the T bit), [_printStatus] is five lines of
    registers and flags followed by exactly the events of
    [_disassemble] on the empty sequence, the fetch of the instruction in
    front of the program counter included. *)
Theorem status_ends_with_the_disassembly :
  forall (debugger : CLIDebugger) (dv : list DebugVector),
    executionMode (cpu (d debugger))
    = (if Z.testbit (cpsr (cpu (d debugger))) 5 then MODE_THUMB else MODE_ARM) ->
    exists dump,
      snd (_printStatus debugger dv) = (dump ++ snd (_disassemble debugger []))%list
      /\ List.length dump = 5%nat
      /\ printed dump = 5%nat
      /\ filter is_service_call dump = [].
Proof.
  intros debugger dv Hmode.
  exists (firstn 5 (snd (_printStatus debugger dv))).
  unfold _printStatus, _disassemble. rewrite Hmode.
  destruct (Z.testbit (cpsr (cpu (d debugger))) 5); repeat split; reflexivity.
Qed.

(** What [_reportEntry] announces. *)
Lemma _reportEntry_lines reason :
  printed (snd (_reportEntry reason))
  = match reason with
    | DEBUGGER_ENTER_MANUAL => 0%nat
    | DEBUGGER_ENTER_ATTACHED => 0%nat
    | _ => 1%nat
    end
  /\ filter is_service_call (snd (_reportEntry reason)) = [].
Proof. destruct reason; split; reflexivity. Qed.

End StatusAtLarge.

(* ------------------------------------------------------------------ *)
(** ** More of the console at work *)

Section MoreRuns.

Import Machine.

Local Open Scope string_scope.
Local Open Scope Z_scope.

Lemma evaluation_fails_exactly_when_witness :
  let tree :=
    TOKEN_OPERATOR_TYPE OP_ADD (TOKEN_UINT_TYPE 1)
      (TOKEN_OPERATOR_TYPE OP_MULTIPLY (TOKEN_IDENTIFIER_TYPE "r0") (TOKEN_UINT_TYPE 0)) in
  type (mkDV DV_INT_TYPE 0) <> DV_ERROR_TYPE
  /\ has_unknown_leaf tree = true
  /\ type (snd (_evaluateParseTree tree (mkDV DV_INT_TYPE 0))) = DV_ERROR_TYPE.
Proof.
  cbv zeta.
  assert (Hclear : type (mkDV DV_INT_TYPE 0) <> DV_ERROR_TYPE) by discriminate.
  split; [exact Hclear|]. split; [reflexivity|].
  apply (proj1 (evaluation_fails_exactly_when _ _ Hclear)). left. reflexivity.
Defined.

Lemma evaluation_stays_unsigned_32_bit_witness :
  let tree :=
    TOKEN_OPERATOR_TYPE OP_DIVIDE
      (TOKEN_OPERATOR_TYPE OP_SUBTRACT (TOKEN_UINT_TYPE 0) (TOKEN_UINT_TYPE 1))
      (TOKEN_IDENTIFIER_TYPE "sp") in
  literals_fit tree = true
  /\ 0 <= fst (_evaluateParseTree tree (mkDV DV_INT_TYPE 0)) <= UINT32_MAX.
Proof.
  cbv zeta. split; [reflexivity|].
  apply evaluation_stays_unsigned_32_bit. reflexivity.
Defined.

Lemma evaluation_is_integer_value_mod_2_32_witness :
  let tree :=
    TOKEN_OPERATOR_TYPE OP_SUBTRACT
      (TOKEN_OPERATOR_TYPE OP_MULTIPLY (TOKEN_UINT_TYPE 4294967295) (TOKEN_UINT_TYPE 4294967295))
      (TOKEN_UINT_TYPE 2) in
  well_formed tree = true
  /\ division_free tree = true
  /\ _evaluateParseTree tree (mkDV DV_INT_TYPE 0)
     = (18446744065119617023 mod 2 ^ 32, mkDV DV_INT_TYPE 0).
Proof.
  cbv zeta. split; [reflexivity|]. split; [reflexivity|].
  apply (evaluation_is_integer_value_mod_2_32
           (TOKEN_OPERATOR_TYPE OP_SUBTRACT
              (TOKEN_OPERATOR_TYPE OP_MULTIPLY (TOKEN_UINT_TYPE 4294967295)
                 (TOKEN_UINT_TYPE 4294967295))
              (TOKEN_UINT_TYPE 2))); reflexivity.
Defined.

Lemma sequence_holds_the_segment_values_witness :
  existsb segment_fails (segments "0-1 7" 5) = false
  /\ map (fun node => uint32 (intValue node)) (_DVParse (Some "0-1 7") 5)
     = [ 4294967295; 7 ]
  /\ map intValue (_DVParse (Some "0-1 7") 5) = [ -1; 7 ].
Proof.
  assert (Hok : existsb segment_fails (segments "0-1 7" 5) = false) by reflexivity.
  split; [exact Hok|].
  destruct (sequence_holds_the_segment_values "0-1 7" 5 Hok) as [Hseq [_ Hvalues]].
  split; [rewrite Hvalues | rewrite Hseq]; reflexivity.
Defined.

Lemma print_writes_the_segment_values_witness :
  existsb segment_fails (segments "0-1 7" 5) = false
  /\ _print paused (_DVParse (Some "0-1 7") 5)
     = (paused, [ Stdout " 4294967295"; Stdout " 7"; Stdout nl ])
  /\ _printHex paused (_DVParse (Some "0-1 7") 5)
     = (paused, [ Stdout " 0xFFFFFFFF"; Stdout " 0x00000007"; Stdout nl ]).
Proof.
  assert (Hok : existsb segment_fails (segments "0-1 7" 5) = false) by reflexivity.
  split; [exact Hok|].
  destruct (print_writes_the_segment_values paused "0-1 7" 5 Hok) as [Hp Hx].
  split; [rewrite Hp | rewrite Hx]; reflexivity.
Defined.

Lemma dispatch_calls_the_bound_handler_witness :
  handler_of "print" = Some _print
  /\ names_verb (entered "PRINT 7") 7 "print" = true
  /\ error_head (arguments_of (entered "PRINT 7") 7) = false
  /\ _parse paused (entered "PRINT 7") 7 = ((1, paused), [ Stdout " 7"; Stdout nl ]).
Proof.
  assert (Hh : handler_of "print" = Some _print) by reflexivity.
  assert (Hv : names_verb (entered "PRINT 7") 7 "print" = true) by reflexivity.
  assert (He : error_head (arguments_of (entered "PRINT 7") 7) = false) by reflexivity.
  split; [exact Hh|]. split; [exact Hv|]. split; [exact He|].
  rewrite (dispatch_calls_the_bound_handler paused _ _ _ _ Hh Hv He). reflexivity.
Defined.

Lemma handlers_change_only_their_part_witness :
  In ("next", _next) _debuggerCommands
  /\ state (d (fst (_next paused []))) = DEBUGGER_PAUSED
  /\ gprs (cpu (d (fst (_next paused [])))) ARM_PC = 12
  /\ engine (d (fst (_next paused []))) = []
  /\ histate (fst (_next paused [])) = [].
Proof.
  assert (Hin : In ("next", _next) _debuggerCommands)
    by (do 11 right; left; reflexivity).
  split; [exact Hin|].
  destruct (handlers_change_only_their_part "next" _next Hin paused [])
    as [Hh [Hs [Hc [He _]]]].
  split; [rewrite Hs; reflexivity|]. split; [rewrite Hc; reflexivity|].
  split; [rewrite (He eq_refl); reflexivity | rewrite Hh; reflexivity].
Defined.

Lemma only_step_and_engine_commands_act_witness :
  In ("rw", _readWord) _debuggerCommands
  /\ name_in "rw" (stepping_commands ++ engine_commands) = false
  /\ existsb changes_machine (snd (_readWord paused [ mkDV DV_INT_TYPE 16 ])) = false.
Proof.
  assert (Hin : In ("rw", _readWord) _debuggerCommands)
    by (do 20 right; left; reflexivity).
  split; [exact Hin|]. split; [reflexivity|].
  apply (only_step_and_engine_commands_act "rw" _readWord Hin eq_refl).
Defined.

Lemma failed_dispatch_changes_nothing_witness :
  fst (fst (_parse paused (entered "rb 1/0") 6)) = 0
  /\ snd (fst (_parse paused (entered "rb 1/0") 6)) = paused
  /\ (snd (_parse paused (entered "rb 1/0") 6) = [ Stdout ("Parse error" ++ nl) ]
      \/ snd (_parse paused (entered "rb 1/0") 6)
         = [ Stdout ("Command not found" ++ nl) ]).
Proof.
  assert (H0 : fst (fst (_parse paused (entered "rb 1/0") 6)) = 0) by reflexivity.
  split; [exact H0|].
  exact (failed_dispatch_changes_nothing paused (entered "rb 1/0") 6 H0).
Defined.

Lemma handlers_receive_integers_witness :
  fst (fst (_parse paused (entered "p/x 1 0-2") 9)) = 1
  /\ Forall (fun node => type node = DV_INT_TYPE
                         /\ - 2 ^ 31 <= intValue node < 2 ^ 31)
       (arguments_of (entered "p/x 1 0-2") 9).
Proof.
  assert (H1 : fst (fst (_parse paused (entered "p/x 1 0-2") 9)) = 1) by reflexivity.
  split; [exact H1|].
  exact (handlers_receive_integers paused (entered "p/x 1 0-2") 9 H1).
Defined.

Lemma disassemble_fetches_count_lines_witness :
  filter is_service_call
    (snd (_disassemble paused [ mkDV DV_INT_TYPE (-4); mkDV DV_INT_TYPE 3 ]))
  = [ Load32 4294967292; Load32 0; Load32 4 ]
  /\ printed (snd (_disassemble paused [ mkDV DV_INT_TYPE (-4); mkDV DV_INT_TYPE 3 ]))
     = 3%nat
  /\ no_int_head [] = true
  /\ filter is_service_call (snd (_disassemble paused [])) = [ Load32 4 ].
Proof.
  destruct (disassemble_fetches_count_lines paused
              [ mkDV DV_INT_TYPE (-4); mkDV DV_INT_TYPE 3 ])
    as [_ [_ [_ Hcount]]].
  destruct (Hcount (-4) 3 [] eq_refl) as [Hloads Hlines].
  destruct (disassemble_fetches_count_lines paused []) as [_ [Hnone _]].
  destruct (Hnone eq_refl) as [Hpc _].
  split; [rewrite Hloads; reflexivity|]. split; [rewrite Hlines; reflexivity|].
  split; [reflexivity|]. rewrite Hpc. reflexivity.
Defined.

Lemma console_reads_to_the_end_of_input_witness :
  let input := [ entered "print 1"; entered "foo"; entered EmptyString ] in
  state (d paused) = DEBUGGER_PAUSED
  /\ Forall (fun line => stops_console line = false) input
  /\ Forall (fun line => stops_console line = false) (histate paused)
  /\ state (d (fst (fst (_commandLine paused input)))) = DEBUGGER_EXITING
  /\ snd (fst (_commandLine paused input)) = [].
Proof.
  cbv zeta.
  assert (Hin : Forall (fun line => stops_console line = false)
                  [ entered "print 1"; entered "foo"; entered EmptyString ])
    by (repeat constructor).
  assert (Hh : Forall (fun line => stops_console line = false) (histate paused))
    by constructor.
  split; [reflexivity|]. split; [exact Hin|]. split; [exact Hh|].
  exact (console_reads_to_the_end_of_input _ paused eq_refl Hin Hh).
Defined.

Lemma ending_command_ends_the_loop_witness :
  state (d paused) = DEBUGGER_PAUSED
  /\ Ascii.eqb (deref (entered "Quit")) NEWLINE = false
  /\ name_in "quit" (resuming_commands ++ quitting_commands) = true
  /\ names_verb (entered "Quit") (size_t (strlen (entered "Quit") - 1)) "quit" = true
  /\ _commandLine_loop [ entered "Quit"; entered "print 1" ] paused
     = ((history_enter (entered "Quit") (set_state DEBUGGER_SHUTDOWN paused),
         [ entered "print 1" ]), []).
Proof.
  assert (Hv : names_verb (entered "Quit") (size_t (strlen (entered "Quit") - 1)) "quit"
               = true) by reflexivity.
  assert (He : error_head (arguments_of (entered "Quit")
                             (size_t (strlen (entered "Quit") - 1))) = false)
    by reflexivity.
  split; [reflexivity|]. split; [reflexivity|]. split; [reflexivity|].
  split; [exact Hv|].
  exact (ending_command_ends_the_loop paused (entered "Quit") [ entered "print 1" ]
           "quit" eq_refl eq_refl eq_refl Hv He).
Defined.

Lemma completion_against_the_candidates_witness :
  (2 <= String.length "br")%nat
  /\ nul_free "br" = true
  /\ candidates "br" = [ "break" ]
  /\ _tabComplete "br" 2 = CC_REDISPLAY "eak ".
Proof.
  assert (Hc : (2 <= String.length "br")%nat) by (cbn; lia).
  split; [exact Hc|]. split; [reflexivity|]. split; [reflexivity|].
  exact (completion_against_the_candidates "br" 2 Hc eq_refl).
Defined.

Lemma status_ends_with_the_disassembly_witness :
  executionMode (cpu (d paused))
  = (if Z.testbit (cpsr (cpu (d paused))) 5 then MODE_THUMB else MODE_ARM)
  /\ exists dump,
       snd (_printStatus paused []) = (dump ++ snd (_disassemble paused []))%list
       /\ List.length dump = 5%nat.
Proof.
  split; [reflexivity|].
  destruct (status_ends_with_the_disassembly paused [] eq_refl)
    as [dump [Hd [Hl _]]].
  exists dump. split; assumption.
Defined.

End MoreRuns.
